(** * netmask: the Mask value type of mask.go

    A shallow embedding of package [netmask] (src/netmask/mask.go) and the
    properties its specification states about it.

    Conventions.
    - Go's [int] and [uint] are taken to be 64 bits wide.  Unsigned fixed-width
      values are integers of [Z]; every conversion that can truncate is written
      as a reduction modulo a power of two ([uint8], [uint32], [uint64]).
    - A byte slice or byte array ([[]byte], [[4]byte], [[16]byte]) holding
      binary data is a [list Z] whose elements satisfy [isByte]; a fixed-size
      array is such a list together with a hypothesis on its length.
    - Text ([[]byte] holding characters, and Go [string]) is a [string]; each
      [ascii] is one byte.
    - A method with a pointer receiver ([UnmarshalBinary], [UnmarshalText]) is
      a computation in the state monad [Recv] whose state is the receiver. *)

From Stdlib Require Import ZArith List Bool String Ascii Lia.
From coqutil Require Import Z.bitblast.
Import ListNotations.
Local Open Scope Z_scope.

(** ** Fixed-width integers *)

Definition isByte (v : Z) : Prop := 0 <= v < 256.
Definition isUint32 (v : Z) : Prop := 0 <= v < 2 ^ 32.

(** Conversions [uint8(x)] (alias [byte(x)]), [uint32(x)], [uint64(x)], [uint(x)]. *)
Definition uint8 (x : Z) : Z := x mod 2 ^ 8.
Definition uint32 (x : Z) : Z := x mod 2 ^ 32.
Definition uint64 (x : Z) : Z := x mod 2 ^ 64.
Definition uint (x : Z) : Z := x mod 2 ^ 64.

(** Conversion [int(x)] of an unsigned 64-bit value: two's complement. *)
Definition int (x : Z) : Z := if x <? 2 ^ 63 then x else x - 2 ^ 64.

(** [x << k] on a [byte] and on a [uint32]. *)
Definition shl8 (x k : Z) : Z := uint8 (Z.shiftl x k).
Definition shl32 (x k : Z) : Z := uint32 (Z.shiftl x k).

(** [^x] on a [byte]. *)
Definition not8 (x : Z) : Z := Z.lxor x 0xFF.

(** ** The Mask type *)

(** The sentinel values of [Mask.z]: [z0] is the zero value of the field. *)
Inductive family : Type := z0 | z4 | z6.

Record Mask : Type := mkMask { mask : Z; z : family }.

(** [Mask{}], the zero Mask. *)
Definition zeroMask : Mask := {| mask := 0; z := z0 |}.

Definition family_eqb (a b : family) : bool :=
  match a, b with
  | z0, z0 | z4, z4 | z6, z6 => true
  | _, _ => false
  end.

(** [x == y] on the struct: field by field. *)
Definition Mask_eqb (x y : Mask) : bool :=
  (mask x =? mask y) && family_eqb (z x) (z y).

(** ** Construction *)

Definition MaskFrom4 (b : list Z) : Mask :=
  {| mask := uint32 (Z.lor (Z.lor (Z.lor (shl32 (uint32 (nth 0 b 0)) 24)
                                         (shl32 (uint32 (nth 1 b 0)) 16))
                                  (shl32 (uint32 (nth 2 b 0)) 8))
                           (uint32 (nth 3 b 0)));
     z := z4 |}.

(** The inner loop of [prefixLength]: [for v&0x80 != 0 { n++; v <<= 1 }].
    A byte has eight bits, so eight iterations always reach the exit test
    ([shiftLoop_exits], [shiftLoop_fuel] below). *)
Fixpoint shiftLoop (fuel : nat) (n v : Z) : Z * Z :=
  match fuel with
  | O => (n, v)
  | S fuel' =>
      if negb (Z.land v 0x80 =? 0)
      then shiftLoop fuel' (n + 1) (shl8 v 1)
      else (n, v)
  end.

(** The trailing loop of [prefixLength]:
    [for i++; i < len(mask); i++ { if mask[i] != 0 { return -1 } }];
    [false] stands for the early [return -1]. *)
Fixpoint restZero (rest : list Z) : bool :=
  match rest with
  | [] => true
  | v :: rest' => if negb (v =? 0) then false else restZero rest'
  end.

(** The [range] loop of [prefixLength], with [n] the running count and [b]
    the bytes from index [i] on. *)
Fixpoint prefixLengthFrom (n : Z) (b : list Z) : Z :=
  match b with
  | [] => n
  | v :: rest =>
      if v =? 0xFF then prefixLengthFrom (n + 8) rest
      else
        let '(n', v') := shiftLoop 8 n v in
        if negb (v' =? 0) then -1
        else if restZero rest then n' else -1
  end.

Definition prefixLength (b : list Z) : Z := prefixLengthFrom 0 b.

Definition MaskFrom16 (b : list Z) : Mask :=
  let ones := prefixLength b in
  if ones =? -1 then zeroMask
  else {| mask := uint32 ones; z := z6 |}.

Definition MaskFromSlice (b : list Z) : Mask * bool :=
  let n := Z.of_nat (List.length b) in
  if n =? 4 then (MaskFrom4 b, true)
  else if n =? 16 then (MaskFrom16 b, true)
  else (zeroMask, false).

(** The loop shared, text for text, by [AsSlice] (16 bytes) and [MaskFrom]
    (4 bytes): [len] bytes are produced from the remaining bit count [n]. *)
Fixpoint fillOnes (len : nat) (n : Z) : list Z :=
  match len with
  | O => []
  | S len' =>
      if 8 <=? n then 0xFF :: fillOnes len' (n - 8)
      else not8 (uint8 (Z.shiftr 0xFF n)) :: fillOnes len' 0
  end.

(** [binary.BigEndian.PutUint32] into a fresh 4-byte array. *)
Definition PutUint32 (v : Z) : list Z :=
  [uint8 (Z.shiftr v 24); uint8 (Z.shiftr v 16); uint8 (Z.shiftr v 8); uint8 v].

Definition AsSlice (m : Mask) : list Z :=
  match z m with
  | z0 => []
  | z4 => PutUint32 (mask m)
  | _ => fillOnes 16 (uint (mask m))
  end.

Definition MaskFrom (ones bits : Z) : Mask :=
  if (ones <? 0) || (bits <? ones) then zeroMask
  else if bits =? 32 then MaskFrom4 (fillOnes 4 (uint ones))
  else if bits =? 128 then {| mask := uint32 ones; z := z6 |}
  else zeroMask.

(** ** Introspection *)

Definition IsValid (m : Mask) : bool := negb (family_eqb (z m) z0).
Definition Is4 (m : Mask) : bool := family_eqb (z m) z4.
Definition Is6 (m : Mask) : bool := family_eqb (z m) z6.

Definition Bits (m : Mask) : Z :=
  match z m with
  | z0 => -1
  | z4 => prefixLength (AsSlice m)
  | _ => mask m
  end.

Definition Equal (x y : Mask) : bool := Mask_eqb x y.

(** ** Errors and the receiver monad *)

(** The [error] values the package can return: [errors.New(s)] and the
    [*strconv.NumError] of the parsing functions. *)
Inductive error : Type :=
| errorString (s : string)
| NumError (Func Num : string) (Err : error).

(** A method on [*Mask] reads and writes the Mask its receiver points to. *)
Definition Recv (A : Type) : Type := Mask -> A * Mask.

Definition ret {A : Type} (a : A) : Recv A := fun m => (a, m).

Definition bind {A B : Type} (c : Recv A) (k : A -> Recv B) : Recv B :=
  fun m => let '(a, m') := c m in k a m'.

(** The assignment [*mask = v]. *)
Definition store (v : Mask) : Recv unit := fun _ => (tt, v).

Notation "c1 ;; c2" := (bind c1 (fun _ => c2))
  (at level 61, right associativity).

(** The [error] result [nil]. *)
Definition nilError : option error := None.

(** ** The parts of the Go standard library the codecs call

    [strconv] and [strings] are not part of the package; they are modelled
    here from the library's own source, specialised to the way mask.go calls
    them: base 10 for [ParseUint], [FormatUint] and [AppendUint], and a
    separator of one byte for [SplitN]. *)

Definition code (c : ascii) : Z := Z.of_N (N_of_ascii c).
Definition chr (v : Z) : ascii := ascii_of_N (Z.to_N v).
Definition strlen (s : string) : Z := Z.of_nat (String.length s).

Module strconv.

Definition ErrSyntax : error := errorString "invalid syntax".
Definition ErrRange : error := errorString "value out of range".

Definition syntaxError (fn str : string) : error := NumError fn str ErrSyntax.
Definition rangeError (fn str : string) : error := NumError fn str ErrRange.

(** The digit loop of [formatBits], the general one taken at base 10:
    [for u >= b { i--; q := u / b; a[i] = digits[u-q*b]; u = q }]
    followed by [i--; a[i] = digits[u]].  The library's branch for base 10
    writes the same digits two at a time.  A [uint64] has at most twenty
    decimal digits ([formatBits_fuel] below). *)
Fixpoint formatBits (fuel : nat) (u : Z) (a : string) : string :=
  match fuel with
  | O => a
  | S fuel' =>
      if 10 <=? u
      then formatBits fuel' (u / 10) (String (chr (48 + (u - u / 10 * 10))) a)
      else String (chr (48 + u)) a
  end.

(** [FormatUint(i, 10)]. *)
Definition FormatUint10 (i : Z) : string := formatBits 20 i "".

(** [AppendUint(dst, i, 10)]. *)
Definition AppendUint10 (dst : string) (i : Z) : string :=
  (dst ++ FormatUint10 i)%string.

(** [Itoa(i)]. *)
Definition Itoa (i : Z) : string :=
  if i <? 0 then String "-"%char (FormatUint10 (- i)) else FormatUint10 i.

Definition bitSizeError (fn str : string) (bitSize : Z) : error :=
  NumError fn str (errorString ("invalid bit size " ++ Itoa bitSize)).

Definition maxUint64 : Z := 2 ^ 64 - 1.

(** The loop of [ParseUint] over the bytes of [s] for [base = 10], where a
    letter, an underscore or any other byte that is not a decimal digit is a
    syntax error. [s0] is the whole input, kept for the error value. *)
Fixpoint parseLoop (s0 : string) (maxVal : Z) (s : string) (n : Z)
  : Z * option error :=
  match s with
  | EmptyString => (n, nilError)
  | String c s' =>
      if (code "0" <=? code c) && (code c <=? code "9") then
        let d := uint8 (code c - code "0") in
        if maxUint64 / 10 + 1 <=? n
        then (maxVal, Some (rangeError "ParseUint" s0))
        else
          let n := uint64 (n * 10) in
          let n1 := uint64 (n + d) in
          if (n1 <? n) || (maxVal <? n1)
          then (maxVal, Some (rangeError "ParseUint" s0))
          else parseLoop s0 maxVal s' n1
      else (0, Some (syntaxError "ParseUint" s0))
  end.

(** [ParseUint(s, 10, bitSize)]. *)
Definition ParseUint10 (s : string) (bitSize : Z) : Z * option error :=
  if (s =? "")%string then (0, Some (syntaxError "ParseUint" s))
  else
    let bad := negb (bitSize =? 0) && ((bitSize <? 0) || (64 <? bitSize)) in
    if bad then (0, Some (bitSizeError "ParseUint" s bitSize))
    else
      let bitSize := if bitSize =? 0 then 64 else bitSize in
      let maxVal := uint64 (uint64 (Z.shiftl 1 bitSize) - 1) in
      parseLoop s maxVal s 0.

End strconv.

Module strings.

(** [Index(s, sep)] for a separator of one byte; [None] stands for -1. *)
Fixpoint Index (s : string) (sep : ascii) : option nat :=
  match s with
  | EmptyString => None
  | String c s' =>
      if (c =? sep)%char then Some O
      else match Index s' sep with
           | Some m => Some (S m)
           | None => None
           end
  end.

(** [Count(s, sep)] for a separator of one byte. *)
Fixpoint Count (s : string) (sep : ascii) : Z :=
  match s with
  | EmptyString => 0
  | String c s' => (if (c =? sep)%char then 1 else 0) + Count s' sep
  end.

(** The loop of [genSplit]: at most [n] cuts at the separator, then the
    unsplit remainder. *)
Fixpoint genSplitLoop (n : nat) (s : string) (sep : ascii) : list string :=
  match n with
  | O => [s]
  | S n' =>
      match Index s sep with
      | None => [s]
      | Some m =>
          substring 0 m s
            :: genSplitLoop n' (substring (m + 1) (String.length s - (m + 1)) s) sep
      end
  end.

(** [SplitN(s, sep, n)] for a separator of one byte. *)
Definition SplitN (s : string) (sep : ascii) (n : Z) : list string :=
  if n =? 0 then []
  else
    let n := if n <? 0 then Count s sep + 1 else n in
    let n := if strlen s + 1 <? n then strlen s + 1 else n in
    genSplitLoop (Z.to_nat (n - 1)) s sep.

End strings.

(** ** Binary codec *)

Definition AppendBinary (m : Mask) (b : list Z) : list Z * option error :=
  match z m with
  | z0 => (b, nilError)
  | z4 => (b ++ [uint8 (Z.shiftr (mask m) 24);
                 uint8 (Z.land (Z.shiftr (mask m) 16) 0xFF);
                 uint8 (Z.land (Z.shiftr (mask m) 8) 0xFF);
                 uint8 (Z.land (mask m) 0xFF)], nilError)
  | _ => (b ++ [uint8 (mask m)], nilError)
  end.

Definition MarshalBinary (m : Mask) : list Z * option error :=
  AppendBinary m [].

Definition UnmarshalBinary (b : list Z) : Recv (option error) :=
  let n := Z.of_nat (List.length b) in
  if n =? 0 then store zeroMask ;; ret nilError
  else if n =? 4 then store (MaskFrom4 b) ;; ret nilError
  else if n =? 1 then store (MaskFrom (nth 0 b 0) 128) ;; ret nilError
  else ret (Some (errorString "unexpected slice size")).

(** ** Text codec *)

Definition appendTextIPv4 (m : Mask) (b : string) : string :=
  let b := strconv.AppendUint10 b (uint64 (uint8 (Z.shiftr (mask m) 24))) in
  let b := (b ++ ".")%string in
  let b := strconv.AppendUint10 b (uint64 (uint8 (Z.shiftr (mask m) 16))) in
  let b := (b ++ ".")%string in
  let b := strconv.AppendUint10 b (uint64 (uint8 (Z.shiftr (mask m) 8))) in
  let b := (b ++ ".")%string in
  let b := strconv.AppendUint10 b (uint64 (uint8 (mask m))) in
  b.

Definition AppendText (m : Mask) (b : string) : string * option error :=
  match z m with
  | z0 => (b, nilError)
  | z4 => (appendTextIPv4 m b, nilError)
  | _ => (strconv.AppendUint10 b (uint64 (mask m)), nilError)
  end.

Definition MarshalText (m : Mask) : string * option error :=
  AppendText m "".

(** The loop of [UnmarshalText] over the four fields:
    [f, err := strconv.ParseUint(s, 10, 8)], an early return on an error,
    [fields[i] = uint32(f)] otherwise. *)
Fixpoint parseFields (sub : list string) : list Z + error :=
  match sub with
  | [] => inl []
  | s :: sub' =>
      match strconv.ParseUint10 s 8 with
      | (_, Some err) => inr err
      | (f, None) =>
          match parseFields sub' with
          | inr err => inr err
          | inl fields => inl (uint32 f :: fields)
          end
      end
  end.

Definition UnmarshalText (text : string) : Recv (option error) :=
  let n := strlen text in
  if n =? 0 then store zeroMask ;; ret nilError
  else if (1 <=? n) && (n <=? 3) then
    match strconv.ParseUint10 text 64 with
    | (_, Some err) => ret (Some err)
    | (u, None) => store (MaskFrom (int u) 128) ;; ret nilError
    end
  else if (strlen "1.1.1.1" <=? n) && (n <=? strlen "255.255.255.255") then
    let sub := strings.SplitN text "." 4 in
    if negb (Z.of_nat (List.length sub) =? 4)
    then ret (Some (errorString "unexpected slice type"))
    else
      match parseFields sub with
      | inr err => ret (Some err)
      | inl fields =>
          store {| mask := uint32 (Z.lor (Z.lor (Z.lor (shl32 (nth 0 fields 0) 24)
                                                       (shl32 (nth 1 fields 0) 16))
                                                (shl32 (nth 2 fields 0) 8))
                                         (nth 3 fields 0));
                   z := z4 |} ;;
          ret nilError
      end
  else ret (Some (errorString "unexpected slice size")).

Definition String_ (m : Mask) : string :=
  match z m with
  | z0 => "invalid Mask"
  | z4 => appendTextIPv4 m ""
  | _ => strconv.FormatUint10 (uint64 (mask m))
  end.

(** ** Buffer sizes

    [MarshalBinary] and [MarshalText] pass these to [make] as the capacity
    of the buffer they append to. *)

Definition marshalBinarySize (m : Mask) : Z :=
  match z m with
  | z0 => 0
  | z4 => 4
  | _ => 1
  end.

Definition marshalTextSize (m : Mask) : Z :=
  match z m with
  | z0 => 0
  | z4 => strlen "255.255.255.255"
  | _ => 1
  end.

(** * Specification vocabulary *)

(** The bits of a byte, most significant first, and of a byte slice. *)
Definition byteBits (v : Z) : list bool :=
  map (Z.testbit v) [7; 6; 5; 4; 3; 2; 1; 0].

Definition bitsOf (b : list Z) : list bool := flat_map byteBits b.

(** The bits of a 32-bit word, bit 31 first. *)
Definition wordBits (w : Z) : list bool :=
  map (fun i => Z.testbit w (31 - Z.of_nat i)) (seq 0 32).

(** A prefix: [N] one-bits followed only by zero-bits. *)
Definition PrefixBits (N : nat) (bits : list bool) : Prop :=
  bits = repeat true N ++ repeat false (List.length bits - N).

(** The number of leading one-bits, and the test that only zero-bits follow
    them. *)
Fixpoint leadingOnes (bits : list bool) : nat :=
  match bits with
  | true :: bits' => S (leadingOnes bits')
  | _ => O
  end.

Definition zerosAfterOnes (bits : list bool) : bool :=
  forallb negb (skipn (leadingOnes bits) bits).

(** The Masks the exported constructors return. *)
Inductive Constructed : Mask -> Prop :=
| Constructed_zero : Constructed zeroMask
| Constructed_MaskFrom4 b :
    List.length b = 4%nat -> Forall isByte b -> Constructed (MaskFrom4 b)
| Constructed_MaskFrom16 b :
    List.length b = 16%nat -> Forall isByte b -> Constructed (MaskFrom16 b)
| Constructed_MaskFromSlice b :
    Forall isByte b -> Constructed (fst (MaskFromSlice b))
| Constructed_MaskFrom ones bits : Constructed (MaskFrom ones bits).

(** The representation invariant of a Mask. *)
Definition wellFormed (m : Mask) : Prop :=
  match z m with
  | z0 => mask m = 0
  | z4 => isUint32 (mask m)
  | z6 => 0 <= mask m <= 128
  end.

(** Decimal digit strings and the number they denote. *)
Definition isDigit (c : ascii) : bool :=
  (code "0" <=? code c) && (code c <=? code "9").

Fixpoint isDigits (s : string) : bool :=
  match s with
  | EmptyString => true
  | String c s' => isDigit c && isDigits s'
  end.

(** The number a string of decimal digits denotes, continuing from [n]. *)
Fixpoint decimalFrom (n : Z) (s : string) : Z :=
  match s with
  | EmptyString => n
  | String c s' => decimalFrom (n * 10 + (code c - code "0")) s'
  end.

Definition decimalValue (s : string) : Z := decimalFrom 0 s.

(** The two ways a decoder ends: it overwrites the receiver with some [v] and
    returns [nil], or it returns an error and leaves the receiver alone. *)
Definition decodes {A : Type} (dec : A -> Recv (option error)) (x : A) : Prop :=
  (exists v, forall r, dec x r = (nilError, v)) \/
  (exists e, forall r, dec x r = (Some e, r)).

(** * Exhaustive checks over the 256 bytes *)

Definition allBytes : list Z := map Z.of_nat (seq 0 256).

(** What the shift loop of [prefixLength] does to the byte [v]: it counts the
    leading one-bits, it has exited, and unless [v] is [0xFF] it leaves zero
    exactly when only zero-bits follow the leading ones. *)
Definition shiftLoop_check (v : Z) : bool :=
  let k := leadingOnes (byteBits v) in
  let '(n', v') := shiftLoop 8 0 v in
  (n' =? Z.of_nat k) && (Z.land v' 0x80 =? 0) &&
  ((v =? 0xFF) ||
   ((k <? 8)%nat && Bool.eqb (v' =? 0) (forallb negb (skipn k (byteBits v))))).

(** A byte is zero exactly when all its bits are. *)
Definition zeroByte_check (v : Z) : bool :=
  Bool.eqb (forallb negb (byteBits v)) (v =? 0).

Definition noError {A : Type} (r : A * option error) : bool :=
  match snd r with None => true | Some _ => false end.

(** The decimal text of a byte: one to three characters, none of them a dot,
    parsed back to the byte at 8 and at 64 bits. *)
Definition field_check (v : Z) : bool :=
  let s := strconv.FormatUint10 v in
  (1 <=? strlen s) && (strlen s <=? 3) &&
  match strings.Index s "." with None => true | Some _ => false end &&
  (fst (strconv.ParseUint10 s 8) =? v) && noError (strconv.ParseUint10 s 8) &&
  (fst (strconv.ParseUint10 s 64) =? v) && noError (strconv.ParseUint10 s 64).

(** The byte whose bits, most significant first, are [bits]. *)
Definition byteOfBits (bits : list bool) : Z :=
  fold_left (fun acc (b : bool) => 2 * acc + (if b then 1 else 0)) bits 0.

Definition byteOfBits_check (v : Z) : bool := byteOfBits (byteBits v) =? v.

(** A decimal field of a dotted quad: at least one character, digits only,
    at most 255. *)
Definition isField (s : string) : Prop :=
  s <> EmptyString /\ isDigits s = true /\ decimalValue s <= 255.

(** The text [f1.f2.f3.f4]. *)
Definition dotted (f1 f2 f3 f4 : string) : string :=
  (f1 ++ String "." (f2 ++ String "." (f3 ++ String "." f4)))%string.

(** How many characters the decimal text of a byte has. *)
Definition digitCount (v : Z) : Z :=
  if v <? 10 then 1 else if v <? 100 then 2 else 3.

Definition digitCount_check (v : Z) : bool :=
  strlen (strconv.FormatUint10 v) =? digitCount v.

(** * Proof automation for bitwise equations *)

Ltac drop_negative_bits :=
  repeat match goal with
         | |- context [Z.testbit ?x ?i] => rewrite (Z.testbit_neg_r x i) by lia
         end.

Ltac split_on_bits :=
  repeat match goal with
         | |- context [Z.testbit ?x ?i] => destruct (Z.testbit x i)
         end;
  reflexivity.

Ltac bytes_bitwise := Z.bitblast; drop_negative_bits; split_on_bits.

(** * Bit lists *)

Lemma forallb_negb_repeat (l : list bool) :
  forallb negb l = true <-> l = repeat false (List.length l).
Proof.
  induction l as [|[] l IH]; simpl.
  - tauto.
  - split; discriminate.
  - rewrite IH. split; [intros ->; rewrite repeat_length; reflexivity|].
    intros H; injection H as H; exact H.
Qed.

Lemma leadingOnes_repeat (N : nat) (r : list bool) :
  leadingOnes r = O -> leadingOnes (repeat true N ++ r) = N.
Proof. intros Hr; induction N; simpl; [exact Hr | now rewrite IHN]. Qed.

Lemma skipn_repeat_app (N : nat) (r : list bool) :
  skipn N (repeat true N ++ r) = r.
Proof. induction N; simpl; auto. Qed.

Lemma PrefixBits_iff (N : nat) (bits : list bool) :
  PrefixBits N bits <-> leadingOnes bits = N /\ zerosAfterOnes bits = true.
Proof.
  unfold PrefixBits, zerosAfterOnes. split.
  - intros H. set (M := (List.length bits - N)%nat) in H.
    assert (HL : leadingOnes bits = N).
    { rewrite H. apply leadingOnes_repeat. destruct M; reflexivity. }
    split; [exact HL|]. rewrite HL. rewrite H at 1.
    rewrite skipn_repeat_app. apply forallb_negb_repeat.
    now rewrite repeat_length.
  - revert N. induction bits as [|[] bits IH]; intros N [HL HZ]; simpl in *.
    + now subst N.
    + destruct N as [|N]; [discriminate|]. injection HL as HL.
      simpl. f_equal. apply IH. split; assumption.
    + subst N. simpl. f_equal. now apply forallb_negb_repeat.
Qed.

Lemma PrefixBits_unique (N N' : nat) (bits : list bool) :
  PrefixBits N bits -> PrefixBits N' bits -> N = N'.
Proof.
  rewrite !PrefixBits_iff. intros [H _] [H' _]. congruence.
Qed.

Lemma PrefixBits_le (N : nat) (bits : list bool) :
  PrefixBits N bits -> (N <= List.length bits)%nat.
Proof.
  unfold PrefixBits. intros H.
  apply (f_equal (@List.length bool)) in H.
  rewrite length_app, !repeat_length in H. lia.
Qed.

Lemma PrefixBits_zero_then_one (N : nat) (bits : list bool) (i j : nat) :
  PrefixBits N bits -> (i < j)%nat ->
  nth i bits true = false -> nth j bits false = true -> False.
Proof.
  unfold PrefixBits. remember (List.length bits - N)%nat as M eqn:HM.
  clear HM. intros -> Hij Hi Hj.
  destruct (Nat.lt_ge_cases i N) as [Hlt|Hge].
  - rewrite app_nth1, nth_repeat in Hi by (rewrite repeat_length; lia).
    discriminate.
  - rewrite app_nth2, nth_repeat in Hj by (rewrite repeat_length; lia).
    discriminate.
Qed.

Lemma leadingOnes_app (a r : list bool) :
  (leadingOnes a < List.length a)%nat ->
  leadingOnes (a ++ r) = leadingOnes a /\
  skipn (leadingOnes a) (a ++ r) = skipn (leadingOnes a) a ++ r.
Proof.
  induction a as [|[] a IH]; simpl; intros H.
  - lia.
  - destruct IH as [IH1 IH2]; [lia|]. now rewrite IH1, IH2.
  - split; reflexivity.
Qed.

(** * Facts checked on each of the 256 bytes *)

Lemma forall_bytes (P : Z -> bool) :
  forallb P allBytes = true -> forall v, isByte v -> P v = true.
Proof.
  intros H v Hv. rewrite forallb_forall in H. apply H.
  unfold isByte in Hv. unfold allBytes. apply in_map_iff.
  exists (Z.to_nat v). split; [lia|]. apply in_seq. lia.
Qed.

Lemma Forall_isByte_cons (v : Z) (b : list Z) :
  Forall isByte (v :: b) -> isByte v /\ Forall isByte b.
Proof. intros H; inversion H; auto. Qed.

(** ** The shift loop of [prefixLength] *)

Lemma shiftLoop_exit (fuel : nat) (n v : Z) :
  Z.land v 0x80 = 0 -> shiftLoop fuel n v = (n, v).
Proof. intros H. destruct fuel; cbn [shiftLoop]; [|rewrite H]; reflexivity. Qed.

Lemma shiftLoop_add (f g : nat) (n v : Z) :
  shiftLoop (f + g) n v =
  shiftLoop g (fst (shiftLoop f n v)) (snd (shiftLoop f n v)).
Proof.
  revert n v. induction f as [|f IH]; intros n v; [reflexivity|].
  cbn [Nat.add shiftLoop].
  destruct (Z.land v 128 =? 0) eqn:E; cbn [negb fst snd].
  - apply Z.eqb_eq in E. now rewrite shiftLoop_exit.
  - apply IH.
Qed.

Lemma shiftLoop_count (fuel : nat) (n v : Z) :
  shiftLoop fuel n v =
  (n + fst (shiftLoop fuel 0 v), snd (shiftLoop fuel 0 v)).
Proof.
  revert n v. induction fuel as [|f IH]; intros n v; cbn [shiftLoop].
  - cbn [fst snd]. now rewrite Z.add_0_r.
  - destruct (Z.land v 128 =? 0); cbn [negb fst snd];
      [now rewrite Z.add_0_r|].
    rewrite (IH (n + 1)), (IH (0 + 1)). cbn [fst snd]. f_equal. lia.
Qed.

Lemma shiftLoop_check_all : forallb shiftLoop_check allBytes = true.
Proof. vm_compute. reflexivity. Qed.

(** After eight iterations the loop condition [v&0x80 != 0] is false: the
    loop has exited. *)
Lemma shiftLoop_exits (n v : Z) :
  isByte v -> Z.land (snd (shiftLoop 8 n v)) 0x80 = 0.
Proof.
  intros Hv. pose proof (forall_bytes _ shiftLoop_check_all v Hv) as H.
  unfold shiftLoop_check in H. rewrite shiftLoop_count.
  destruct (shiftLoop 8 0 v) as [n' v']. cbn [snd].
  apply andb_prop in H as [H _]. apply andb_prop in H as [_ H].
  now apply Z.eqb_eq.
Qed.

(** More iterations than eight change nothing. *)
Lemma shiftLoop_fuel (fuel : nat) (n v : Z) :
  isByte v -> (8 <= fuel)%nat -> shiftLoop fuel n v = shiftLoop 8 n v.
Proof.
  intros Hv Hf. replace fuel with (8 + (fuel - 8))%nat by lia.
  rewrite shiftLoop_add, shiftLoop_exit; [|now apply shiftLoop_exits].
  now destruct (shiftLoop 8 n v).
Qed.

Lemma shiftLoop_bits (n v : Z) :
  isByte v -> v <> 0xFF ->
  (leadingOnes (byteBits v) < 8)%nat /\
  fst (shiftLoop 8 n v) = n + Z.of_nat (leadingOnes (byteBits v)) /\
  (snd (shiftLoop 8 n v) =? 0) =
    forallb negb (skipn (leadingOnes (byteBits v)) (byteBits v)).
Proof.
  intros Hv Hne. pose proof (forall_bytes _ shiftLoop_check_all v Hv) as H.
  unfold shiftLoop_check in H. rewrite shiftLoop_count.
  destruct (shiftLoop 8 0 v) as [n' v']. cbn [fst snd].
  apply andb_prop in H as [H H2]. apply andb_prop in H as [H1 _].
  apply Z.eqb_eq in H1. apply orb_prop in H2 as [H2|H2].
  - apply Z.eqb_eq in H2. contradiction.
  - apply andb_prop in H2 as [H2 H3]. apply Nat.ltb_lt in H2.
    apply Bool.eqb_prop in H3. subst n'. auto.
Qed.

Lemma zeroByte_check_all : forallb zeroByte_check allBytes = true.
Proof. vm_compute. reflexivity. Qed.

Lemma restZero_bits (b : list Z) :
  Forall isByte b -> restZero b = forallb negb (bitsOf b).
Proof.
  induction b as [|v b IH]; intros Hb; [reflexivity|].
  apply Forall_isByte_cons in Hb as [Hv Hb].
  pose proof (forall_bytes _ zeroByte_check_all v Hv) as H.
  apply Bool.eqb_prop in H.
  cbn [restZero bitsOf flat_map]. rewrite forallb_app, H.
  destruct (v =? 0); simpl; [now apply IH | reflexivity].
Qed.

(** ** [prefixLength] computes the prefix length of the bits of its argument *)

Lemma prefixLengthFrom_bits (b : list Z) (n : Z) :
  Forall isByte b ->
  prefixLengthFrom n b =
  if zerosAfterOnes (bitsOf b)
  then n + Z.of_nat (leadingOnes (bitsOf b)) else -1.
Proof.
  revert n. induction b as [|v b IH]; intros n Hb.
  - cbn. lia.
  - apply Forall_isByte_cons in Hb as [Hv Hb].
    cbn [prefixLengthFrom]. destruct (v =? 255) eqn:E.
    + apply Z.eqb_eq in E. subst v. rewrite IH by assumption.
      unfold zerosAfterOnes. cbn [bitsOf flat_map].
      change (byteBits 255) with (repeat true 8).
      cbn [repeat app leadingOnes skipn].
      fold (bitsOf b). destruct (forallb negb _); lia.
    + apply Z.eqb_neq in E.
      destruct (shiftLoop_bits n v Hv E) as (Hk & Hn & Hz).
      destruct (shiftLoop 8 n v) as [n' v']. cbn [fst snd] in Hn, Hz.
      unfold zerosAfterOnes. cbn [bitsOf flat_map]. fold (bitsOf b).
      assert (HL : (leadingOnes (byteBits v) < List.length (byteBits v))%nat)
        by (exact Hk).
      destruct (leadingOnes_app (byteBits v) (bitsOf b) HL) as [-> ->].
      rewrite forallb_app, <- Hz, <- restZero_bits by assumption.
      subst n'. destruct (v' =? 0); reflexivity.
Qed.

Lemma prefixLength_bits (b : list Z) :
  Forall isByte b ->
  prefixLength b =
  if zerosAfterOnes (bitsOf b) then Z.of_nat (leadingOnes (bitsOf b)) else -1.
Proof. intros Hb. unfold prefixLength. now rewrite prefixLengthFrom_bits. Qed.

Lemma bitsOf_length (b : list Z) :
  List.length (bitsOf b) = (8 * List.length b)%nat.
Proof.
  induction b as [|v b IH]; [reflexivity|].
  cbn [bitsOf flat_map]. rewrite length_app. fold (bitsOf b). rewrite IH.
  cbn [byteBits map List.length]. lia.
Qed.

Lemma prefixLength_PrefixBits (b : list Z) (N : nat) :
  Forall isByte b ->
  (prefixLength b = Z.of_nat N <-> PrefixBits N (bitsOf b)).
Proof.
  intros Hb. rewrite prefixLength_bits, PrefixBits_iff by assumption.
  destruct (zerosAfterOnes (bitsOf b)); split.
  - intros H. split; [lia | reflexivity].
  - intros [H _]. lia.
  - lia.
  - intros [_ H]. discriminate.
Qed.

Lemma prefixLength_invalid (b : list Z) :
  Forall isByte b ->
  (prefixLength b = -1 <-> forall N, ~ PrefixBits N (bitsOf b)).
Proof.
  intros Hb. rewrite prefixLength_bits by assumption.
  destruct (zerosAfterOnes (bitsOf b)) eqn:E; split.
  - lia.
  - intros H. exfalso. apply (H (leadingOnes (bitsOf b))).
    apply PrefixBits_iff. auto.
  - intros _ N H. apply PrefixBits_iff in H as [_ H]. congruence.
  - reflexivity.
Qed.

(** The result is [-1] or a count of bits of the slice, far inside the range
    of [int] for any slice that fits in memory. *)
Lemma prefixLength_range (b : list Z) :
  Forall isByte b ->
  -1 <= prefixLength b <= 8 * Z.of_nat (List.length b).
Proof.
  intros Hb. rewrite prefixLength_bits by assumption.
  destruct (zerosAfterOnes (bitsOf b)) eqn:E; [|lia].
  assert (H : PrefixBits (leadingOnes (bitsOf b)) (bitsOf b))
    by (apply PrefixBits_iff; auto).
  apply PrefixBits_le in H. rewrite bitsOf_length in H. lia.
Qed.

(** * Big-endian packing *)

Lemma list4_eq (a b c d a' b' c' d' : Z) :
  a = a' -> b = b' -> c = c' -> d = d' -> [a; b; c; d] = [a'; b'; c'; d'].
Proof. congruence. Qed.

Lemma length4_inv (b : list Z) :
  List.length b = 4%nat ->
  exists b0 b1 b2 b3, b = [b0; b1; b2; b3].
Proof.
  destruct b as [|b0 [|b1 [|b2 [|b3 [|]]]]]; try discriminate.
  intros _. now exists b0, b1, b2, b3.
Qed.

Lemma MaskFrom4_isUint32 (b : list Z) : isUint32 (mask (MaskFrom4 b)).
Proof. unfold MaskFrom4, isUint32, uint32; cbn [mask]. apply Z.mod_pos_bound. lia. Qed.

Lemma MaskFrom4_PutUint32 (w : Z) :
  isUint32 w -> MaskFrom4 (PutUint32 w) = {| mask := w; z := z4 |}.
Proof.
  intros Hw. unfold MaskFrom4, PutUint32. cbn [nth]. f_equal.
  unfold shl32, uint32, uint8.
  rewrite <- (Z.mod_small w (2 ^ 32)) at 5 by exact Hw.
  Z.bitblast.
Qed.

Lemma PutUint32_MaskFrom4 (b : list Z) :
  List.length b = 4%nat -> Forall isByte b ->
  PutUint32 (mask (MaskFrom4 b)) = b.
Proof.
  intros Hlen Hb. destruct (length4_inv b Hlen) as (b0 & b1 & b2 & b3 & ->).
  apply Forall_isByte_cons in Hb as [H0 Hb].
  apply Forall_isByte_cons in Hb as [H1 Hb].
  apply Forall_isByte_cons in Hb as [H2 Hb].
  apply Forall_isByte_cons in Hb as [H3 _].
  unfold MaskFrom4, PutUint32. cbn [nth mask].
  unfold shl32, uint32, uint8.
  rewrite <- (Z.mod_small b0 (2 ^ 8)) by exact H0.
  rewrite <- (Z.mod_small b1 (2 ^ 8)) by exact H1.
  rewrite <- (Z.mod_small b2 (2 ^ 8)) by exact H2.
  rewrite <- (Z.mod_small b3 (2 ^ 8)) by exact H3.
  apply list4_eq; bytes_bitwise.
Qed.

(** [AppendBinary] writes the same four bytes as [PutUint32]. *)
Lemma AppendBinary_z4 (w : Z) (b : list Z) :
  AppendBinary {| mask := w; z := z4 |} b = (b ++ PutUint32 w, nilError).
Proof.
  unfold AppendBinary, PutUint32. cbn [z mask]. do 2 f_equal.
  unfold uint8. change 255 with (Z.ones 8).
  apply list4_eq; Z.bitblast.
Qed.

Lemma bitsOf_PutUint32 (w : Z) :
  isUint32 w -> bitsOf (PutUint32 w) = wordBits w.
Proof.
  intros Hw. unfold PutUint32, wordBits, bitsOf, byteBits, uint8.
  cbn [flat_map map app seq].
  repeat (apply (f_equal2 (@cons bool));
          [ rewrite ?Z.mod_pow2_bits_low, ?Z.shiftr_spec by lia; f_equal; lia |]).
  reflexivity.
Qed.

Lemma PutUint32_isByte (w : Z) : Forall isByte (PutUint32 w).
Proof.
  unfold PutUint32, uint8, isByte.
  repeat constructor; apply Z.mod_pos_bound; lia.
Qed.

(** * The loop that writes [n] one-bits *)

Lemma fillOnes_zero (len : nat) : fillOnes len 0 = repeat 0 len.
Proof. induction len as [|len IH]; [reflexivity|]. cbn. now rewrite IH. Qed.

Lemma bitsOf_zero (len : nat) :
  bitsOf (repeat 0 len) = repeat false (8 * len).
Proof.
  induction len as [|len IH]; [reflexivity|].
  replace (8 * S len)%nat with (8 + 8 * len)%nat by lia.
  rewrite repeat_app. cbn [repeat bitsOf flat_map]. fold (bitsOf (repeat 0 len)).
  now rewrite IH.
Qed.

Lemma fillOnes_length (len : nat) (n : Z) :
  List.length (fillOnes len n) = len.
Proof.
  revert n. induction len as [|len IH]; intros n; [reflexivity|].
  cbn [fillOnes]. destruct (8 <=? n); cbn [List.length]; now rewrite IH.
Qed.

Lemma fillOnes_bits (len N : nat) :
  (N <= 8 * len)%nat ->
  bitsOf (fillOnes len (Z.of_nat N)) =
  repeat true N ++ repeat false (8 * len - N).
Proof.
  revert N. induction len as [|len IH]; intros N HN.
  - replace N with O by lia. reflexivity.
  - cbn [fillOnes]. destruct (8 <=? Z.of_nat N) eqn:E.
    + apply Z.leb_le in E.
      assert (HM : exists M, N = (8 + M)%nat) by (exists (N - 8)%nat; lia).
      destruct HM as [M ->].
      replace (Z.of_nat (8 + M) - 8) with (Z.of_nat M) by lia.
      cbn [bitsOf flat_map]. fold (bitsOf (fillOnes len (Z.of_nat M))).
      rewrite IH by lia.
      rewrite repeat_app, <- app_assoc.
      replace (8 * S len - (8 + M))%nat with (8 * len - M)%nat by lia.
      reflexivity.
    + apply Z.leb_gt in E.
      rewrite fillOnes_zero. cbn [bitsOf flat_map].
      fold (bitsOf (repeat 0 len)). rewrite bitsOf_zero.
      replace (8 * S len - N)%nat with ((8 - N) + 8 * len)%nat by lia.
      rewrite repeat_app, app_assoc. f_equal.
      do 8 (destruct N as [|N]; [reflexivity|]). lia.
Qed.

Lemma fillOnes_isByte (len : nat) (n : Z) :
  0 <= n -> Forall isByte (fillOnes len n).
Proof.
  revert n. induction len as [|len IH]; intros n Hn; [constructor|].
  cbn [fillOnes]. destruct (8 <=? n) eqn:E.
  - apply Z.leb_le in E. constructor; [unfold isByte; lia | apply IH; lia].
  - apply Z.leb_gt in E. constructor; [|apply IH; lia].
    assert (H : n = 0 \/ n = 1 \/ n = 2 \/ n = 3 \/ n = 4 \/ n = 5 \/
                n = 6 \/ n = 7) by lia.
    unfold isByte.
    repeat (destruct H as [->|H]; [vm_compute; split; congruence|]).
    subst n. vm_compute. split; congruence.
Qed.

Lemma prefixLength_fillOnes (len : nat) (n : Z) :
  0 <= n <= 8 * Z.of_nat len -> prefixLength (fillOnes len n) = n.
Proof.
  intros Hn. rewrite <- (Z2Nat.id n) at 2 by lia.
  apply prefixLength_PrefixBits; [apply fillOnes_isByte; lia|].
  unfold PrefixBits. rewrite bitsOf_length, fillOnes_length.
  rewrite <- (Z2Nat.id n) at 1 by lia. apply fillOnes_bits. lia.
Qed.

(** * Claims about construction and introspection *)

Lemma MaskFrom16_prefix (b : list Z) (N : nat) :
  Forall isByte b -> List.length b = 16%nat -> PrefixBits N (bitsOf b) ->
  MaskFrom16 b = {| mask := Z.of_nat N; z := z6 |}.
Proof.
  intros Hb Hlen HN. unfold MaskFrom16.
  pose proof (PrefixBits_le _ _ HN) as Hle. rewrite bitsOf_length, Hlen in Hle.
  apply prefixLength_PrefixBits in HN; [|assumption]. rewrite HN.
  destruct (Z.of_nat N =? -1) eqn:E; [apply Z.eqb_eq in E; lia|].
  unfold uint32. rewrite Z.mod_small by lia. reflexivity.
Qed.

Lemma MaskFrom16_invalid (b : list Z) :
  Forall isByte b -> (forall N, ~ PrefixBits N (bitsOf b)) ->
  MaskFrom16 b = zeroMask.
Proof.
  intros Hb H. unfold MaskFrom16.
  apply prefixLength_invalid in H; [|assumption]. now rewrite H.
Qed.

(** C1. On any byte slice [prefixLength] returns [N] exactly when the bits of
    the slice are [N] one-bits followed only by zero-bits, and returns [-1]
    exactly when they are not of that shape for any [N], in particular when a
    one-bit comes after a zero-bit; hence [MaskFrom16] returns the IPv6 Mask
    of prefix length [N] on a 16-byte prefix of [N] ones, and the zero Mask
    on every other 16-byte input. *)
Theorem prefixLength_spec (b : list Z) :
  Forall isByte b ->
  (forall N : nat, prefixLength b = Z.of_nat N <-> PrefixBits N (bitsOf b)) /\
  (prefixLength b = -1 <-> forall N : nat, ~ PrefixBits N (bitsOf b)) /\
  (prefixLength b = -1 \/ exists N : nat, prefixLength b = Z.of_nat N) /\
  (forall i j : nat,
      (i < j)%nat -> nth i (bitsOf b) true = false ->
      nth j (bitsOf b) false = true -> prefixLength b = -1) /\
  (List.length b = 16%nat ->
   (forall N : nat, PrefixBits N (bitsOf b) ->
                    MaskFrom16 b = {| mask := Z.of_nat N; z := z6 |}) /\
   ((forall N : nat, ~ PrefixBits N (bitsOf b)) -> MaskFrom16 b = zeroMask)).
Proof.
  intros Hb. split; [|split; [|split; [|split]]].
  - intros N. now apply prefixLength_PrefixBits.
  - now apply prefixLength_invalid.
  - rewrite prefixLength_bits by assumption.
    destruct (zerosAfterOnes (bitsOf b)); [right; eauto | now left].
  - intros i j Hij Hi Hj. apply prefixLength_invalid; [assumption|].
    intros N HN. exact (PrefixBits_zero_then_one _ _ _ _ HN Hij Hi Hj).
  - intros Hlen. split.
    + intros N HN. now apply MaskFrom16_prefix.
    + now apply MaskFrom16_invalid.
Qed.

Lemma prefixLength_spec_witness :
  Forall isByte [255; 255; 224; 0; 0; 0; 0; 0; 0; 0; 0; 0; 0; 0; 0; 0] /\
  MaskFrom16 [255; 255; 224; 0; 0; 0; 0; 0; 0; 0; 0; 0; 0; 0; 0; 0]
  = {| mask := 19; z := z6 |}.
Proof.
  assert (Hb : Forall isByte
                 [255; 255; 224; 0; 0; 0; 0; 0; 0; 0; 0; 0; 0; 0; 0; 0])
    by (repeat constructor; unfold isByte; lia).
  split; [exact Hb|].
  destruct (prefixLength_spec _ Hb) as (_ & _ & _ & _ & H).
  destruct (H eq_refl) as [H1 _].
  apply (H1 19%nat). reflexivity.
Defined.

(** C5. [Bits] returns [-1] on the zero Mask and the stored length [n] on an
    IPv6 Mask; on an IPv4 Mask it returns [N] exactly when the stored 32-bit
    pattern is [N] one-bits followed only by zero-bits and [-1] exactly when
    the pattern has no such shape, as for the Mask of the bytes
    [0x55, 0, 0, 0]. *)
Theorem Bits_spec (w : Z) :
  isUint32 w ->
  Bits zeroMask = -1 /\
  (forall n : Z, Bits {| mask := n; z := z6 |} = n) /\
  (forall N : nat, Bits {| mask := w; z := z4 |} = Z.of_nat N
                   <-> PrefixBits N (wordBits w)) /\
  (Bits {| mask := w; z := z4 |} = -1
   <-> forall N : nat, ~ PrefixBits N (wordBits w)) /\
  Bits (MaskFrom4 [0x55; 0; 0; 0]) = -1.
Proof.
  intros Hw. split; [reflexivity|]. split; [reflexivity|].
  unfold Bits, AsSlice. cbn [z mask]. rewrite <- bitsOf_PutUint32 by assumption.
  split; [|split].
  - intros N. apply prefixLength_PrefixBits, PutUint32_isByte.
  - apply prefixLength_invalid, PutUint32_isByte.
  - reflexivity.
Qed.

Lemma Bits_spec_witness :
  isUint32 0xFFFFFF00 /\ Bits {| mask := 0xFFFFFF00; z := z4 |} = 24.
Proof.
  assert (Hw : isUint32 0xFFFFFF00) by (unfold isUint32; lia).
  split; [exact Hw|].
  destruct (Bits_spec _ Hw) as (_ & _ & H & _).
  apply (H 24%nat). reflexivity.
Defined.

Lemma MaskFrom_32 (n : Z) :
  0 <= n <= 32 -> MaskFrom n 32 = MaskFrom4 (fillOnes 4 n).
Proof.
  intros Hn. unfold MaskFrom.
  destruct (n <? 0) eqn:E1; [apply Z.ltb_lt in E1; lia|].
  destruct (32 <? n) eqn:E2; [apply Z.ltb_lt in E2; lia|].
  cbn [orb Z.eqb Pos.eqb]. unfold uint. now rewrite Z.mod_small by lia.
Qed.

Lemma MaskFrom_128 (n : Z) :
  0 <= n <= 128 -> MaskFrom n 128 = {| mask := n; z := z6 |}.
Proof.
  intros Hn. unfold MaskFrom.
  destruct (n <? 0) eqn:E1; [apply Z.ltb_lt in E1; lia|].
  destruct (128 <? n) eqn:E2; [apply Z.ltb_lt in E2; lia|].
  cbn [orb Z.eqb Pos.eqb]. unfold uint32. now rewrite Z.mod_small by lia.
Qed.

Lemma MaskFrom_128_invalid (n : Z) :
  128 < n -> MaskFrom n 128 = zeroMask.
Proof.
  intros Hn. unfold MaskFrom.
  destruct (128 <? n) eqn:E2; [|apply Z.ltb_ge in E2; lia].
  now rewrite orb_true_r.
Qed.

(** C6. For [0 <= n <= 32], [MaskFrom(n, 32)] is an IPv4 Mask whose [Bits] is
    [n] and whose [AsSlice] is four bytes made of [n] one-bits followed only
    by zero-bits. *)
Theorem MaskFrom_32_spec (n : Z) :
  0 <= n <= 32 ->
  Is4 (MaskFrom n 32) = true /\
  Bits (MaskFrom n 32) = n /\
  List.length (AsSlice (MaskFrom n 32)) = 4%nat /\
  PrefixBits (Z.to_nat n) (bitsOf (AsSlice (MaskFrom n 32))).
Proof.
  intros Hn. rewrite MaskFrom_32 by assumption.
  assert (HS : AsSlice (MaskFrom4 (fillOnes 4 n)) = fillOnes 4 n).
  { apply PutUint32_MaskFrom4;
      [apply fillOnes_length | apply fillOnes_isByte; lia]. }
  assert (HB : prefixLength (fillOnes 4 n) = n)
    by (apply prefixLength_fillOnes; lia).
  split; [reflexivity|]. split; [|split].
  - unfold Bits. cbn [z MaskFrom4]. now rewrite HS.
  - rewrite HS. apply fillOnes_length.
  - rewrite HS. apply prefixLength_PrefixBits;
      [apply fillOnes_isByte; lia | rewrite HB; lia].
Qed.

Lemma MaskFrom_32_spec_witness :
  0 <= 24 <= 32 /\ Bits (MaskFrom 24 32) = 24 /\
  AsSlice (MaskFrom 24 32) = [255; 255; 255; 0].
Proof.
  split; [lia|]. split; [|reflexivity].
  apply (MaskFrom_32_spec 24). lia.
Defined.

(** C7. For [0 <= n <= 128], [MaskFrom16] applied to the 16 bytes that
    [AsSlice] returns for [MaskFrom(n, 128)] gives back [MaskFrom(n, 128)]. *)
Theorem MaskFrom_128_roundtrip (n : Z) :
  0 <= n <= 128 ->
  List.length (AsSlice (MaskFrom n 128)) = 16%nat /\
  MaskFrom16 (AsSlice (MaskFrom n 128)) = MaskFrom n 128.
Proof.
  intros Hn. rewrite MaskFrom_128 by assumption.
  unfold AsSlice. cbn [z mask]. unfold uint. rewrite Z.mod_small by lia.
  split; [apply fillOnes_length|].
  unfold MaskFrom16. rewrite prefixLength_fillOnes by lia.
  destruct (n =? -1) eqn:E; [apply Z.eqb_eq in E; lia|].
  unfold uint32. now rewrite Z.mod_small by lia.
Qed.

Lemma MaskFrom_128_roundtrip_witness :
  0 <= 77 <= 128 /\ MaskFrom16 (AsSlice (MaskFrom 77 128)) = MaskFrom 77 128.
Proof. split; [lia|]. apply (MaskFrom_128_roundtrip 77). lia. Defined.

(** * Equality *)

Lemma family_eqb_eq (a b : family) : family_eqb a b = true <-> a = b.
Proof. destruct a, b; simpl; split; congruence. Qed.

Lemma Mask_eqb_eq (x y : Mask) : Mask_eqb x y = true <-> x = y.
Proof.
  destruct x as [mx zx], y as [my zy]. unfold Mask_eqb. cbn [mask z].
  rewrite andb_true_iff, Z.eqb_eq, family_eqb_eq.
  split; [intros [-> ->]; reflexivity | intros H; injection H; auto].
Qed.

(** C8. [==] and [Equal] hold exactly when the two Masks have the same
    family and the same payload, whichever constructors built them:
    [MaskFrom(24, 32)] equals [MaskFrom4([255,255,255,0])] under both. *)
Theorem Equal_structural :
  (forall x y : Mask,
      Mask_eqb x y = true <-> (z x = z y /\ mask x = mask y)) /\
  (forall x y : Mask, Equal x y = Mask_eqb x y) /\
  (forall x y : Mask, Equal x y = true <-> x = y) /\
  Mask_eqb (MaskFrom 24 32) (MaskFrom4 [255; 255; 255; 0]) = true /\
  Equal (MaskFrom 24 32) (MaskFrom4 [255; 255; 255; 0]) = true.
Proof.
  split; [|split; [|split; [|split]]].
  - intros x y. unfold Mask_eqb.
    rewrite andb_true_iff, Z.eqb_eq, family_eqb_eq. tauto.
  - reflexivity.
  - intros x y. apply Mask_eqb_eq.
  - reflexivity.
  - reflexivity.
Qed.

(** * The representation invariant *)

Lemma MaskFrom16_wellFormed (b : list Z) :
  Forall isByte b -> List.length b = 16%nat -> wellFormed (MaskFrom16 b).
Proof.
  intros Hb Hlen. unfold MaskFrom16.
  pose proof (prefixLength_range b Hb) as Hr. rewrite Hlen in Hr.
  destruct (prefixLength b =? -1) eqn:E; [reflexivity|].
  apply Z.eqb_neq in E. unfold wellFormed, uint32. cbn [z mask].
  rewrite Z.mod_small by lia. lia.
Qed.

Lemma MaskFrom_wellFormed (ones bits : Z) : wellFormed (MaskFrom ones bits).
Proof.
  unfold MaskFrom.
  destruct (ones <? 0) eqn:E1; [reflexivity|]. apply Z.ltb_ge in E1.
  destruct (bits <? ones) eqn:E2; [reflexivity|]. apply Z.ltb_ge in E2.
  cbn [orb]. destruct (bits =? 32); [apply MaskFrom4_isUint32|].
  destruct (bits =? 128) eqn:E3; [|reflexivity].
  apply Z.eqb_eq in E3. unfold wellFormed, uint32. cbn [z mask].
  rewrite Z.mod_small by lia. lia.
Qed.

Lemma Constructed_wellFormed (m : Mask) : Constructed m -> wellFormed m.
Proof.
  intros H. destruct H as [|b Hlen Hb|b Hlen Hb|b Hb|ones bits].
  - reflexivity.
  - apply MaskFrom4_isUint32.
  - now apply MaskFrom16_wellFormed.
  - unfold MaskFromSlice.
    destruct (Z.of_nat (List.length b) =? 4); [apply MaskFrom4_isUint32|].
    destruct (Z.of_nat (List.length b) =? 16) eqn:E; [|reflexivity].
    apply Z.eqb_eq in E. apply MaskFrom16_wellFormed; [assumption | lia].
  - apply MaskFrom_wellFormed.
Qed.

(** * Binary codec *)

Lemma binary_roundtrip_wellFormed (m r : Mask) :
  wellFormed m ->
  snd (MarshalBinary m) = nilError /\
  UnmarshalBinary (fst (MarshalBinary m)) r = (nilError, m) /\
  fst (MarshalBinary m) =
    match z m with
    | z0 => []
    | z4 => PutUint32 (mask m)
    | z6 => [mask m]
    end.
Proof.
  destruct m as [w f]. unfold wellFormed, MarshalBinary. cbn [z mask].
  destruct f; intros Hw.
  - subst w. repeat split.
  - rewrite AppendBinary_z4. cbn [fst snd app].
    split; [reflexivity|]. split; [|reflexivity].
    unfold UnmarshalBinary. cbn -[MaskFrom4 PutUint32].
    unfold bind, store, ret. now rewrite MaskFrom4_PutUint32.
  - unfold AppendBinary. cbn [z mask fst snd app]. unfold uint8.
    rewrite Z.mod_small by lia.
    split; [reflexivity|]. split; [|reflexivity].
    unfold UnmarshalBinary. cbn -[MaskFrom].
    unfold bind, store, ret. now rewrite MaskFrom_128.
Qed.

(** C2. For every Mask [m] returned by a constructor, [MarshalBinary] returns
    no error, [UnmarshalBinary] of its output stores a Mask equal to [m] and
    returns no error, and the encoding is empty for the zero Mask, the four
    big-endian bytes of the mask for IPv4 and the single byte of the prefix
    length for IPv6. *)
Theorem binary_roundtrip (m r : Mask) :
  Constructed m ->
  snd (MarshalBinary m) = nilError /\
  UnmarshalBinary (fst (MarshalBinary m)) r = (nilError, m) /\
  fst (MarshalBinary m) =
    match z m with
    | z0 => []
    | z4 => PutUint32 (mask m)
    | z6 => [mask m]
    end /\
  List.length (fst (MarshalBinary m)) =
    match z m with z0 => 0%nat | z4 => 4%nat | z6 => 1%nat end.
Proof.
  intros Hm. apply Constructed_wellFormed in Hm.
  destruct (binary_roundtrip_wellFormed m r Hm) as (H1 & H2 & H3).
  repeat split; try assumption.
  rewrite H3. now destruct (z m).
Qed.

Lemma binary_roundtrip_witness :
  Constructed (MaskFrom 24 32) /\
  UnmarshalBinary (fst (MarshalBinary (MaskFrom 24 32))) zeroMask
  = (nilError, MaskFrom 24 32).
Proof.
  split; [apply Constructed_MaskFrom|].
  apply (binary_roundtrip (MaskFrom 24 32) zeroMask).
  apply Constructed_MaskFrom.
Defined.



(** * Decoding either stores a Mask or returns an error *)

Lemma UnmarshalBinary_decodes (b : list Z) : decodes UnmarshalBinary b.
Proof.
  unfold decodes, UnmarshalBinary.
  destruct (Z.of_nat (List.length b) =? 0); [left; eexists; reflexivity|].
  destruct (Z.of_nat (List.length b) =? 4); [left; eexists; reflexivity|].
  destruct (Z.of_nat (List.length b) =? 1); [left; eexists; reflexivity|].
  right; eexists; reflexivity.
Qed.

Lemma UnmarshalText_decodes (text : string) : decodes UnmarshalText text.
Proof.
  unfold decodes, UnmarshalText.
  destruct (strlen text =? 0); [left; eexists; reflexivity|].
  destruct ((1 <=? strlen text) && (strlen text <=? 3)).
  { destruct (strconv.ParseUint10 text 64) as [u [e|]];
      [right | left]; eexists; reflexivity. }
  destruct ((strlen "1.1.1.1" <=? strlen text)
            && (strlen text <=? strlen "255.255.255.255"));
    [|right; eexists; reflexivity].
  destruct (negb (Z.of_nat (List.length (strings.SplitN text "." 4)) =? 4));
    [right; eexists; reflexivity|].
  destruct (parseFields (strings.SplitN text "." 4)) as [fields|e];
    [left | right]; eexists; reflexivity.
Qed.

Lemma decodes_atomic {A : Type} (dec : A -> Recv (option error)) (x : A) :
  decodes dec x ->
  forall r : Mask,
    (forall e, fst (dec x r) = Some e -> snd (dec x r) = r) /\
    (fst (dec x r) = nilError -> forall r', dec x r' = dec x r).
Proof.
  intros [[v H]|[e H]] r; rewrite (H r); cbn [fst snd]; split.
  - discriminate.
  - intros _ r'. now rewrite H.
  - reflexivity.
  - discriminate.
Qed.

(** C10. When [UnmarshalBinary] or [UnmarshalText] returns an error the
    receiver still holds the Mask it held before the call; when either
    returns [nil] the receiver holds a Mask that depends on the input alone,
    the old one having been overwritten. *)
Theorem decode_atomic (r : Mask) :
  (forall (b : list Z) (e : error),
      fst (UnmarshalBinary b r) = Some e -> snd (UnmarshalBinary b r) = r) /\
  (forall (text : string) (e : error),
      fst (UnmarshalText text r) = Some e -> snd (UnmarshalText text r) = r) /\
  (forall (b : list Z) (r' : Mask),
      fst (UnmarshalBinary b r) = nilError ->
      UnmarshalBinary b r' = UnmarshalBinary b r) /\
  (forall (text : string) (r' : Mask),
      fst (UnmarshalText text r) = nilError ->
      UnmarshalText text r' = UnmarshalText text r).
Proof.
  split; [|split; [|split]].
  - intros b. apply (decodes_atomic _ _ (UnmarshalBinary_decodes b) r).
  - intros t. apply (decodes_atomic _ _ (UnmarshalText_decodes t) r).
  - intros b r' H.
    now apply (decodes_atomic _ _ (UnmarshalBinary_decodes b) r).
  - intros t r' H.
    now apply (decodes_atomic _ _ (UnmarshalText_decodes t) r).
Qed.

Lemma decode_atomic_witness :
  fst (UnmarshalText "1.2.3.256" (MaskFrom 24 32))
  = Some (NumError "ParseUint" "256" (errorString "value out of range")) /\
  snd (UnmarshalText "1.2.3.256" (MaskFrom 24 32)) = MaskFrom 24 32.
Proof.
  split; [reflexivity|].
  destruct (decode_atomic (MaskFrom 24 32)) as (_ & H & _).
  apply (H "1.2.3.256"%string
           (NumError "ParseUint" "256" (errorString "value out of range"))).
  reflexivity.
Defined.

(** * Parsing decimal digits *)

Lemma isDigit_code (c : ascii) : isDigit c = true -> 48 <= code c <= 57.
Proof.
  unfold isDigit. change (code "0") with 48. change (code "9") with 57.
  rewrite andb_true_iff, !Z.leb_le. tauto.
Qed.

Lemma decimalFrom_bounds (s : string) (n : Z) :
  isDigits s = true -> 0 <= n ->
  n <= decimalFrom n s < (n + 1) * 10 ^ strlen s.
Proof.
  unfold strlen. revert n. induction s as [|c s IH]; intros n Hs Hn.
  - cbn. lia.
  - cbn [isDigits] in Hs. apply andb_prop in Hs as [Hc Hs].
    apply isDigit_code in Hc. cbn [decimalFrom String.length].
    change (code "0") with 48.
    specialize (IH (n * 10 + (code c - 48)) Hs ltac:(lia)).
    rewrite Nat2Z.inj_succ, Z.pow_succ_r by lia.
    assert (0 < 10 ^ Z.of_nat (String.length s))
      by (apply Z.pow_pos_nonneg; lia).
    nia.
Qed.

Lemma parseLoop_digits (s s0 : string) (maxVal n : Z) :
  isDigits s = true -> 0 <= n ->
  decimalFrom n s <= maxVal -> maxVal <= strconv.maxUint64 ->
  strconv.parseLoop s0 maxVal s n = (decimalFrom n s, nilError).
Proof.
  revert n. induction s as [|c s IH]; intros n Hs Hn Hle Hmax; [reflexivity|].
  cbn [isDigits] in Hs. apply andb_prop in Hs as [Hc Hs].
  cbn [strconv.parseLoop decimalFrom] in *.
  fold (isDigit c). rewrite Hc. apply isDigit_code in Hc.
  change (code "0") with 48 in *.
  pose proof (decimalFrom_bounds s (n * 10 + (code c - 48)) Hs ltac:(lia))
    as [Hlo _].
  unfold strconv.maxUint64 in *.
  change ((2 ^ 64 - 1) / 10 + 1) with 1844674407370955162.
  destruct (1844674407370955162 <=? n) eqn:E; [apply Z.leb_le in E; lia|].
  unfold uint64, uint8. rewrite (Z.mod_small (code c - 48)) by lia.
  rewrite (Z.mod_small (n * 10)) by lia.
  rewrite (Z.mod_small (n * 10 + (code c - 48))) by lia.
  destruct (n * 10 + (code c - 48) <? n * 10) eqn:E1;
    [apply Z.ltb_lt in E1; lia|].
  destruct (maxVal <? n * 10 + (code c - 48)) eqn:E2;
    [apply Z.ltb_lt in E2; lia|].
  cbn [orb]. apply IH; try assumption; lia.
Qed.

Lemma ParseUint10_digits (s : string) :
  isDigits s = true -> 1 <= strlen s <= 3 ->
  strconv.ParseUint10 s 64 = (decimalValue s, nilError) /\
  0 <= decimalValue s < 1000.
Proof.
  intros Hs Hlen.
  pose proof (decimalFrom_bounds s 0 Hs ltac:(lia)) as Hb.
  fold (decimalValue s) in Hb.
  assert (H10 : 10 ^ strlen s <= 10 ^ 3) by (apply Z.pow_le_mono_r; lia).
  split; [|lia].
  unfold strconv.ParseUint10.
  destruct s as [|c s]; [unfold strlen in Hlen; cbn in Hlen; lia|].
  cbn [String.eqb andb negb Z.eqb Z.ltb Z.compare orb].
  change (uint64 (uint64 (Z.shiftl 1 64) - 1)) with strconv.maxUint64.
  unfold decimalValue in *.
  apply parseLoop_digits; try assumption; unfold strconv.maxUint64; lia.
Qed.

(** C4, as the code has it. [UnmarshalText] of one to three decimal digits
    whose value exceeds 128, and [UnmarshalBinary] of one byte whose value
    exceeds 128, return no error and store the zero Mask. *)
Theorem decode_out_of_range (r : Mask) :
  (forall text : string,
      isDigits text = true -> 1 <= strlen text <= 3 ->
      128 < decimalValue text ->
      UnmarshalText text r = (nilError, zeroMask)) /\
  (forall v : Z,
      isByte v -> 128 < v -> UnmarshalBinary [v] r = (nilError, zeroMask)).
Proof.
  split.
  - intros text Hs Hlen Hv.
    destruct (ParseUint10_digits text Hs Hlen) as [HP Hr].
    unfold UnmarshalText.
    destruct (strlen text =? 0) eqn:E0; [apply Z.eqb_eq in E0; lia|].
    destruct (1 <=? strlen text) eqn:E1; [|apply Z.leb_gt in E1; lia].
    destruct (strlen text <=? 3) eqn:E3; [|apply Z.leb_gt in E3; lia].
    cbn [andb]. rewrite HP. unfold nilError, bind, store, ret, int.
    destruct (decimalValue text <? 2 ^ 63) eqn:E; [|apply Z.ltb_ge in E; lia].
    now rewrite MaskFrom_128_invalid.
  - intros v _ Hv. unfold UnmarshalBinary. cbn -[MaskFrom].
    unfold bind, store, ret. now rewrite MaskFrom_128_invalid.
Qed.

Lemma decode_out_of_range_witness :
  (isDigits "300" = true /\ 1 <= strlen "300" <= 3 /\
   128 < decimalValue "300") /\
  UnmarshalText "300" (MaskFrom 24 32) = (nilError, zeroMask).
Proof.
  assert (H : isDigits "300" = true /\ 1 <= strlen "300" <= 3 /\
              128 < decimalValue "300")
    by (vm_compute; repeat split; congruence).
  split; [exact H|].
  destruct (decode_out_of_range (MaskFrom 24 32)) as [HT _].
  apply (HT "300"%string); apply H.
Defined.

(** C4 fails as stated: the three characters 129 and the single byte 129
    are decoded with a [nil] error, and the receiver becomes the zero
    Mask. *)
Lemma decode_out_of_range_counterexample :
  fst (UnmarshalText "129" (MaskFrom 24 32)) = nilError /\
  snd (UnmarshalText "129" (MaskFrom 24 32)) = zeroMask /\
  fst (UnmarshalBinary [129] (MaskFrom 24 32)) = nilError /\
  snd (UnmarshalBinary [129] (MaskFrom 24 32)) = zeroMask.
Proof. repeat split. Qed.

(** * Strings *)

Lemma append_assoc (a b c : string) :
  ((a ++ b) ++ c)%string = (a ++ (b ++ c))%string.
Proof. induction a as [|x a IH]; cbn; [reflexivity | now rewrite IH]. Qed.

Lemma length_append (a b : string) :
  String.length (a ++ b) = (String.length a + String.length b)%nat.
Proof. induction a as [|x a IH]; cbn; [reflexivity | now rewrite IH]. Qed.

Lemma substring_all (s : string) : substring 0 (String.length s) s = s.
Proof. induction s as [|x s IH]; cbn; [reflexivity | now rewrite IH]. Qed.

Lemma substring_append_l (a b : string) :
  substring 0 (String.length a) (a ++ b) = a.
Proof.
  induction a as [|x a IH]; cbn; [now destruct b | now rewrite IH].
Qed.

Lemma substring_append_r (a b : string) (c : ascii) :
  substring (String.length a + 1)
            (String.length (a ++ String c b) - (String.length a + 1))
            (a ++ String c b) = b.
Proof.
  induction a as [|x a IH]; cbn [String.length append Nat.add substring].
  - replace (S (String.length b) - 1)%nat with (String.length b) by lia.
    apply substring_all.
  - exact IH.
Qed.

Lemma Index_append (a b : string) (sep : ascii) :
  strings.Index a sep = None ->
  strings.Index (a ++ String sep b) sep = Some (String.length a).
Proof.
  induction a as [|x a IH]; cbn [strings.Index append String.length].
  - now rewrite Ascii.eqb_refl.
  - destruct (x =? sep)%char; [discriminate|].
    destruct (strings.Index a sep); [discriminate|].
    intros _. now rewrite IH.
Qed.

Lemma genSplitLoop_cut (n : nat) (a b : string) (sep : ascii) :
  strings.Index a sep = None ->
  strings.genSplitLoop (S n) (a ++ String sep b) sep
  = a :: strings.genSplitLoop n b sep.
Proof.
  intros Ha. cbn [strings.genSplitLoop]. rewrite Index_append by assumption.
  now rewrite substring_append_l, substring_append_r.
Qed.

(** ** Decimal fields *)

(** Twenty digits are enough for a [uint64]: more iterations of the digit
    loop change nothing. *)
Lemma formatBits_enough (f f' : nat) (u : Z) (a : string) :
  (1 <= f <= f')%nat -> 0 <= u < 10 ^ Z.of_nat f ->
  strconv.formatBits f' u a = strconv.formatBits f u a.
Proof.
  revert f' u a. induction f as [|f IH]; intros f' u a Hf Hu; [lia|].
  destruct f' as [|f']; [lia|]. cbn [strconv.formatBits].
  destruct (10 <=? u) eqn:E; [|reflexivity]. apply Z.leb_le in E.
  rewrite Nat2Z.inj_succ, Z.pow_succ_r in Hu by lia.
  destruct f as [|f]; [cbn in Hu; lia|].
  apply IH; [lia|]. split; [apply Z.div_pos; lia|].
  apply Z.div_lt_upper_bound; lia.
Qed.

Lemma formatBits_fuel (fuel : nat) (u : Z) (a : string) :
  0 <= u < 2 ^ 64 -> (20 <= fuel)%nat ->
  strconv.formatBits fuel u a = strconv.formatBits 20 u a.
Proof.
  intros Hu Hf. apply formatBits_enough; [lia|].
  change (10 ^ Z.of_nat 20) with 100000000000000000000. lia.
Qed.

Lemma field_check_all : forallb field_check allBytes = true.
Proof. vm_compute. reflexivity. Qed.

Lemma noError_eq {A : Type} (r : A * option error) (v : A) :
  fst r = v -> noError r = true -> r = (v, nilError).
Proof.
  destruct r as [x [e|]]; unfold noError; cbn; intros; [discriminate|].
  now subst.
Qed.

Lemma field_facts (v : Z) :
  isByte v ->
  1 <= strlen (strconv.FormatUint10 v) <= 3 /\
  strings.Index (strconv.FormatUint10 v) "." = None /\
  strconv.ParseUint10 (strconv.FormatUint10 v) 8 = (v, nilError) /\
  strconv.ParseUint10 (strconv.FormatUint10 v) 64 = (v, nilError).
Proof.
  intros Hv. pose proof (forall_bytes _ field_check_all v Hv) as H.
  unfold field_check in H. cbv zeta in H.
  repeat (apply andb_prop in H as [H ?]).
  repeat match goal with
         | H : (_ =? _) = true |- _ => apply Z.eqb_eq in H
         | H : (_ <=? _) = true |- _ => apply Z.leb_le in H
         end.
  split; [lia|]. split; [|split]; try (now apply noError_eq).
  now destruct (strings.Index (strconv.FormatUint10 v) ".").
Qed.

(** * Text codec *)

Lemma appendTextIPv4_fields (w : Z) :
  appendTextIPv4 {| mask := w; z := z4 |} "" =
  (strconv.FormatUint10 (uint8 (Z.shiftr w 24)) ++ String "."
    (strconv.FormatUint10 (uint8 (Z.shiftr w 16)) ++ String "."
      (strconv.FormatUint10 (uint8 (Z.shiftr w 8)) ++ String "."
        (strconv.FormatUint10 (uint8 w)))))%string.
Proof.
  assert (H64 : forall x, uint64 (uint8 x) = uint8 x).
  { intros x. unfold uint64, uint8. apply Z.mod_small.
    pose proof (Z.mod_pos_bound x (2 ^ 8) ltac:(lia)). lia. }
  unfold appendTextIPv4, strconv.AppendUint10. cbn [mask].
  rewrite !H64, !append_assoc. reflexivity.
Qed.

Lemma SplitN_fields (x1 x2 x3 x4 : string) :
  strings.Index x1 "." = None -> strings.Index x2 "." = None ->
  strings.Index x3 "." = None ->
  strings.SplitN
    (x1 ++ String "." (x2 ++ String "." (x3 ++ String "." x4)))%string "." 4
  = [x1; x2; x3; x4].
Proof.
  intros H1 H2 H3. unfold strings.SplitN.
  change (4 =? 0) with false. change (4 <? 0) with false. cbv iota.
  match goal with
  | |- context [strlen ?s + 1 <? 4] =>
      assert (Hlen : 3 <= strlen s); [|destruct (strlen s + 1 <? 4) eqn:E]
  end.
  - unfold strlen. rewrite length_append. cbn [String.length].
    rewrite length_append. cbn [String.length].
    rewrite length_append. cbn [String.length]. lia.
  - apply Z.ltb_lt in E. lia.
  - change (Z.to_nat (4 - 1)) with 3%nat.
    now rewrite !genSplitLoop_cut by assumption.
Qed.

Lemma UnmarshalText_fields (a b c d : Z) (r : Mask) :
  isByte a -> isByte b -> isByte c -> isByte d ->
  UnmarshalText
    (strconv.FormatUint10 a ++ String "."
      (strconv.FormatUint10 b ++ String "."
        (strconv.FormatUint10 c ++ String "."
          (strconv.FormatUint10 d))))%string r
  = (nilError, MaskFrom4 [a; b; c; d]).
Proof.
  intros Ha Hb Hc Hd.
  destruct (field_facts a Ha) as (La & Ia & Pa & _).
  destruct (field_facts b Hb) as (Lb & Ib & Pb & _).
  destruct (field_facts c Hc) as (Lc & Ic & Pc & _).
  destruct (field_facts d Hd) as (Ld & _ & Pd & _).
  unfold UnmarshalText. rewrite SplitN_fields by assumption.
  match goal with
  | |- context [strlen ?s =? 0] =>
      assert (Hlen : 7 <= strlen s <= 15)
  end.
  { unfold strlen in *. rewrite length_append. cbn [String.length].
    rewrite length_append. cbn [String.length].
    rewrite length_append. cbn [String.length]. lia. }
  match goal with
  | |- context [strlen ?s =? 0] => generalize dependent (strlen s)
  end.
  intros n Hn. change (strlen "1.1.1.1") with 7.
  change (strlen "255.255.255.255") with 15.
  destruct (n =? 0) eqn:E0; [apply Z.eqb_eq in E0; lia|].
  destruct (n <=? 3) eqn:E3; [apply Z.leb_le in E3; lia|].
  rewrite andb_false_r.
  destruct (7 <=? n) eqn:E7; [|apply Z.leb_gt in E7; lia].
  destruct (n <=? 15) eqn:E15; [|apply Z.leb_gt in E15; lia].
  cbn [andb List.length Z.of_nat Pos.of_succ_nat Pos.succ Z.eqb Pos.eqb negb
       parseFields].
  rewrite Pa, Pb, Pc, Pd. unfold nilError, bind, store, ret. cbn [nth].
  unfold MaskFrom4. cbn [nth].
  assert (H32 : forall v, isByte v -> uint32 v = v).
  { intros v Hv. unfold uint32, isByte in *. apply Z.mod_small. lia. }
  now rewrite !(H32 a Ha), !(H32 b Hb), !(H32 c Hc), !(H32 d Hd).
Qed.

Lemma uint8_isByte (x : Z) : isByte (uint8 x).
Proof. unfold isByte, uint8. apply Z.mod_pos_bound. lia. Qed.

Lemma text_roundtrip_wellFormed (m r : Mask) :
  wellFormed m ->
  snd (MarshalText m) = nilError /\
  UnmarshalText (fst (MarshalText m)) r = (nilError, m).
Proof.
  destruct m as [w f]. unfold wellFormed, MarshalText, AppendText.
  cbn [z mask]. destruct f; intros Hw; cbn [fst snd].
  - subst w. split; reflexivity.
  - split; [reflexivity|]. rewrite appendTextIPv4_fields.
    rewrite UnmarshalText_fields by apply uint8_isByte.
    f_equal. change [uint8 (Z.shiftr w 24); uint8 (Z.shiftr w 16);
                     uint8 (Z.shiftr w 8); uint8 w] with (PutUint32 w).
    now apply MaskFrom4_PutUint32.
  - split; [reflexivity|].
    assert (Hb : isByte w) by (unfold isByte; lia).
    destruct (field_facts w Hb) as (Lw & _ & _ & Pw).
    unfold strconv.AppendUint10, uint64. rewrite Z.mod_small by lia.
    cbn [append]. unfold UnmarshalText.
    destruct (strlen (strconv.FormatUint10 w) =? 0) eqn:E0;
      [apply Z.eqb_eq in E0; lia|].
    destruct (1 <=? strlen (strconv.FormatUint10 w)) eqn:E1;
      [|apply Z.leb_gt in E1; lia].
    destruct (strlen (strconv.FormatUint10 w) <=? 3) eqn:E3;
      [|apply Z.leb_gt in E3; lia].
    cbn [andb]. rewrite Pw. unfold nilError, bind, store, ret, int.
    destruct (w <? 2 ^ 63) eqn:E; [|apply Z.ltb_ge in E; lia].
    now rewrite MaskFrom_128.
Qed.

(** C3. For every Mask [m] returned by a constructor, [MarshalText] returns
    no error and [UnmarshalText] of its output stores a Mask equal to [m] and
    returns no error; the zero Mask is encoded as the empty string, which
    decodes to the zero Mask. *)
Theorem text_roundtrip (m r : Mask) :
  Constructed m ->
  snd (MarshalText m) = nilError /\
  UnmarshalText (fst (MarshalText m)) r = (nilError, m) /\
  MarshalText zeroMask = (EmptyString, nilError) /\
  UnmarshalText EmptyString r = (nilError, zeroMask).
Proof.
  intros Hm. apply Constructed_wellFormed in Hm.
  destruct (text_roundtrip_wellFormed m r Hm) as [H1 H2].
  repeat split; assumption.
Qed.

Lemma text_roundtrip_witness :
  Constructed (MaskFrom4 [255; 255; 240; 0]) /\
  fst (MarshalText (MaskFrom4 [255; 255; 240; 0])) = "255.255.240.0"%string /\
  UnmarshalText "255.255.240.0" zeroMask
  = (nilError, MaskFrom4 [255; 255; 240; 0]).
Proof.
  assert (H : Constructed (MaskFrom4 [255; 255; 240; 0])).
  { apply Constructed_MaskFrom4; [reflexivity|].
    repeat constructor; unfold isByte; lia. }
  split; [exact H|]. split; [reflexivity|].
  apply (text_roundtrip (MaskFrom4 [255; 255; 240; 0]) zeroMask H).
Defined.

(** * Further properties of construction and byte conversion *)

Lemma byteOfBits_check_all : forallb byteOfBits_check allBytes = true.
Proof. vm_compute. reflexivity. Qed.

Lemma byteBits_inj (a b : Z) :
  isByte a -> isByte b -> byteBits a = byteBits b -> a = b.
Proof.
  intros Ha Hb H.
  pose proof (forall_bytes _ byteOfBits_check_all a Ha) as Ea.
  pose proof (forall_bytes _ byteOfBits_check_all b Hb) as Eb.
  unfold byteOfBits_check in Ea, Eb. apply Z.eqb_eq in Ea, Eb.
  rewrite <- Ea, <- Eb. now rewrite H.
Qed.

Lemma app_same_length {A : Type} (a a' b b' : list A) :
  List.length a = List.length a' -> a ++ b = a' ++ b' -> a = a' /\ b = b'.
Proof.
  revert a'. induction a as [|x a IH]; intros [|x' a'] Hlen H;
    try discriminate.
  - now split.
  - injection Hlen as Hlen. injection H as Hx H.
    destruct (IH a' Hlen H) as [-> ->]. now subst.
Qed.

Lemma bitsOf_inj (a b : list Z) :
  Forall isByte a -> Forall isByte b -> bitsOf a = bitsOf b -> a = b.
Proof.
  revert b. induction a as [|x a IH]; intros [|y b] Ha Hb H.
  - reflexivity.
  - discriminate.
  - discriminate.
  - apply Forall_isByte_cons in Ha as [Hx Ha].
    apply Forall_isByte_cons in Hb as [Hy Hb].
    cbn [bitsOf flat_map] in H. fold (bitsOf a) in H. fold (bitsOf b) in H.
    apply app_same_length in H as [Hxy Hab]; [|reflexivity].
    f_equal; [now apply byteBits_inj | now apply IH].
Qed.

(** The only bytes whose bits are [k] ones followed by zeros are the ones the
    fill loop writes. *)
Lemma prefix_bytes_unique (b : list Z) (k : nat) :
  Forall isByte b -> PrefixBits k (bitsOf b) ->
  b = fillOnes (List.length b) (Z.of_nat k).
Proof.
  intros Hb Hk. pose proof (PrefixBits_le _ _ Hk) as Hle.
  rewrite bitsOf_length in Hle.
  apply bitsOf_inj; [assumption | apply fillOnes_isByte; lia|].
  rewrite fillOnes_bits by assumption.
  unfold PrefixBits in Hk. now rewrite bitsOf_length in Hk.
Qed.

Lemma prefixLength_cases (b : list Z) :
  Forall isByte b ->
  (exists N : nat, PrefixBits N (bitsOf b) /\ prefixLength b = Z.of_nat N) \/
  ((forall N : nat, ~ PrefixBits N (bitsOf b)) /\ prefixLength b = -1).
Proof.
  intros Hb. destruct (zerosAfterOnes (bitsOf b)) eqn:E.
  - left. exists (leadingOnes (bitsOf b)). split.
    + apply PrefixBits_iff. auto.
    + rewrite prefixLength_bits by assumption. now rewrite E.
  - right. assert (H : prefixLength b = -1)
      by (rewrite prefixLength_bits by assumption; now rewrite E).
    split; [now apply prefixLength_invalid | exact H].
Qed.

Lemma MaskFrom16_valid (b : list Z) :
  Forall isByte b -> List.length b = 16%nat ->
  (IsValid (MaskFrom16 b) = true <-> exists N : nat, PrefixBits N (bitsOf b)).
Proof.
  intros Hb Hlen. destruct (prefixLength_cases b Hb) as [(N & HN & _)|[HN _]].
  - rewrite (MaskFrom16_prefix b N Hb Hlen HN). split; [eauto | reflexivity].
  - rewrite (MaskFrom16_invalid b Hb HN). split; [discriminate|].
    intros [N H]. now apply HN in H.
Qed.

(** X1. [MaskFromSlice] reports [true] exactly for slices of 4 or 16 bytes and
    returns the zero Mask with [false]; yet [true] does not mean a valid
    Mask: the Mask is valid exactly for 4 bytes, or for 16 bytes that are a
    prefix. *)
Theorem MaskFromSlice_spec (b : list Z) :
  Forall isByte b ->
  (snd (MaskFromSlice b) = true
   <-> List.length b = 4%nat \/ List.length b = 16%nat) /\
  (snd (MaskFromSlice b) = false -> fst (MaskFromSlice b) = zeroMask) /\
  (IsValid (fst (MaskFromSlice b)) = true
   <-> List.length b = 4%nat \/
       (List.length b = 16%nat /\ exists N : nat, PrefixBits N (bitsOf b))).
Proof.
  intros Hb. unfold MaskFromSlice.
  destruct (Z.of_nat (List.length b) =? 4) eqn:E4.
  { apply Z.eqb_eq in E4. cbn [fst snd].
    split; [|split]; [split; [left; lia | reflexivity] | discriminate |].
    split; [left; lia | reflexivity]. }
  apply Z.eqb_neq in E4.
  destruct (Z.of_nat (List.length b) =? 16) eqn:E16.
  - apply Z.eqb_eq in E16. cbn [fst snd].
    split; [|split]; [split; [right; lia | reflexivity] | discriminate |].
    rewrite MaskFrom16_valid by (assumption || lia).
    split; [intros H; right; split; [lia | exact H]|].
    intros [H|[_ H]]; [lia | exact H].
  - apply Z.eqb_neq in E16. cbn [fst snd].
    split; [|split]; [split; [discriminate | lia] | reflexivity |].
    split; [discriminate | intros [H|[H _]]; lia].
Qed.

Lemma MaskFromSlice_spec_witness :
  Forall isByte [255; 0; 255; 0; 0; 0; 0; 0; 0; 0; 0; 0; 0; 0; 0; 0] /\
  snd (MaskFromSlice [255; 0; 255; 0; 0; 0; 0; 0; 0; 0; 0; 0; 0; 0; 0; 0])
  = true /\
  fst (MaskFromSlice [255; 0; 255; 0; 0; 0; 0; 0; 0; 0; 0; 0; 0; 0; 0; 0])
  = zeroMask.
Proof.
  assert (Hb : Forall isByte
                 [255; 0; 255; 0; 0; 0; 0; 0; 0; 0; 0; 0; 0; 0; 0; 0])
    by (repeat constructor; unfold isByte; lia).
  split; [exact Hb|]. split; [|reflexivity].
  apply (proj1 (MaskFromSlice_spec _ Hb)). right. reflexivity.
Defined.

Lemma AsSlice_MaskFromSlice_wellFormed (m : Mask) :
  wellFormed m -> MaskFromSlice (AsSlice m) = (m, IsValid m).
Proof.
  destruct m as [w f]. unfold wellFormed, AsSlice. cbn [z mask].
  destruct f; intros Hw.
  - now subst w.
  - unfold MaskFromSlice. cbn [PutUint32 List.length Z.of_nat Pos.of_succ_nat
                                Pos.succ Z.eqb Pos.eqb].
    fold (PutUint32 w). now rewrite MaskFrom4_PutUint32.
  - unfold uint. rewrite Z.mod_small by lia.
    unfold MaskFromSlice. rewrite fillOnes_length.
    cbn [Z.of_nat Pos.of_succ_nat Pos.succ Z.eqb Pos.eqb].
    unfold MaskFrom16. rewrite prefixLength_fillOnes by lia.
    destruct (w =? -1) eqn:E; [apply Z.eqb_eq in E; lia|].
    unfold uint32. now rewrite Z.mod_small by lia.
Qed.

(** X2. [MaskFromSlice] undoes [AsSlice]: for a Mask [m] returned by a
    constructor, [MaskFromSlice(m.AsSlice())] is [m], with the flag [true]
    exactly when [m] is valid; so [AsSlice] tells constructed Masks apart. *)
Theorem AsSlice_MaskFromSlice (m : Mask) :
  Constructed m ->
  MaskFromSlice (AsSlice m) = (m, IsValid m) /\
  (forall m' : Mask, Constructed m' -> AsSlice m' = AsSlice m -> m' = m).
Proof.
  intros Hm. apply Constructed_wellFormed in Hm.
  split; [now apply AsSlice_MaskFromSlice_wellFormed|].
  intros m' Hm' H. apply Constructed_wellFormed in Hm'.
  apply AsSlice_MaskFromSlice_wellFormed in Hm, Hm'.
  rewrite H in Hm'. congruence.
Qed.

Lemma AsSlice_MaskFromSlice_witness :
  Constructed (MaskFrom 77 128) /\
  MaskFromSlice (AsSlice (MaskFrom 77 128)) = (MaskFrom 77 128, true).
Proof.
  split; [apply Constructed_MaskFrom|].
  exact (proj1 (AsSlice_MaskFromSlice (MaskFrom 77 128)
                  (Constructed_MaskFrom 77 128))).
Defined.

(** X3. [AsSlice] undoes [MaskFrom4]: any four bytes, prefix or not, make a
    valid IPv4 Mask whose [AsSlice] is those bytes and whose [Bits] is
    their [prefixLength]; so [MaskFrom4] never confuses two inputs. *)
Theorem MaskFrom4_AsSlice (b : list Z) :
  List.length b = 4%nat -> Forall isByte b ->
  Is4 (MaskFrom4 b) = true /\
  AsSlice (MaskFrom4 b) = b /\
  Bits (MaskFrom4 b) = prefixLength b /\
  (forall b' : list Z,
      List.length b' = 4%nat -> Forall isByte b' ->
      MaskFrom4 b' = MaskFrom4 b -> b' = b).
Proof.
  intros Hlen Hb.
  assert (HS : forall c, List.length c = 4%nat -> Forall isByte c ->
                         AsSlice (MaskFrom4 c) = c)
    by (intros c Hc1 Hc2; now apply PutUint32_MaskFrom4).
  split; [reflexivity|]. split; [now apply HS|]. split.
  - unfold Bits. cbn [z MaskFrom4]. now rewrite HS.
  - intros b' Hlen' Hb' H. rewrite <- (HS b' Hlen' Hb'), H. now apply HS.
Qed.

Lemma MaskFrom4_AsSlice_witness :
  (List.length [85; 0; 0; 0] = 4%nat /\ Forall isByte [85; 0; 0; 0]) /\
  AsSlice (MaskFrom4 [85; 0; 0; 0]) = [85; 0; 0; 0].
Proof.
  assert (Hb : Forall isByte [85; 0; 0; 0])
    by (repeat constructor; unfold isByte; lia).
  split; [split; [reflexivity | exact Hb]|].
  exact (proj1 (proj2 (MaskFrom4_AsSlice [85; 0; 0; 0] eq_refl Hb))).
Defined.



(** X5. For a Mask returned by a constructor [AsSlice] returns byte values
    only: none for the zero Mask, the 4 bytes holding bits 31 to 0 of the
    mask for IPv4, and for IPv6 16 bytes holding as many one-bits as the
    prefix length followed by zero-bits up to 128. *)
Theorem AsSlice_spec (m : Mask) :
  Constructed m ->
  Forall isByte (AsSlice m) /\
  List.length (AsSlice m) =
    match z m with z0 => 0%nat | z4 => 4%nat | z6 => 16%nat end /\
  (z m = z4 -> bitsOf (AsSlice m) = wordBits (mask m)) /\
  (z m = z6 ->
   bitsOf (AsSlice m) =
   repeat true (Z.to_nat (mask m)) ++ repeat false (128 - Z.to_nat (mask m))).
Proof.
  intros Hm. apply Constructed_wellFormed in Hm.
  destruct m as [w f]. unfold wellFormed, AsSlice in *. cbn [z mask] in *.
  destruct f.
  - repeat split; try discriminate. constructor.
  - split; [apply PutUint32_isByte|]. split; [reflexivity|].
    split; [intros _; now apply bitsOf_PutUint32 | discriminate].
  - unfold uint. rewrite Z.mod_small by lia.
    split; [apply fillOnes_isByte; lia|].
    split; [apply fillOnes_length|]. split; [discriminate|]. intros _.
    rewrite <- (Z2Nat.id w) at 1 by lia. apply fillOnes_bits. lia.
Qed.

Lemma AsSlice_spec_witness :
  Constructed (MaskFrom 12 128) /\
  AsSlice (MaskFrom 12 128)
  = [255; 240; 0; 0; 0; 0; 0; 0; 0; 0; 0; 0; 0; 0; 0; 0] /\
  List.length (AsSlice (MaskFrom 12 128)) = 16%nat.
Proof.
  split; [apply Constructed_MaskFrom|]. split; [reflexivity|].
  exact (proj1 (proj2 (AsSlice_spec (MaskFrom 12 128)
                         (Constructed_MaskFrom 12 128)))).
Defined.

Lemma Bits_MaskFrom_32 (n : Z) : 0 <= n <= 32 -> Bits (MaskFrom n 32) = n.
Proof.
  intros Hn. rewrite MaskFrom_32 by assumption.
  unfold Bits, AsSlice. cbn [z mask MaskFrom4].
  change (PutUint32 _) with (PutUint32 (mask (MaskFrom4 (fillOnes 4 n)))).
  rewrite PutUint32_MaskFrom4
    by (apply fillOnes_length || (apply fillOnes_isByte; lia)).
  apply prefixLength_fillOnes. lia.
Qed.

Lemma MaskFrom_cases (ones bits : Z) :
  (0 <= ones <= bits /\ bits = 32 /\
   MaskFrom ones bits = MaskFrom4 (fillOnes 4 ones)) \/
  (0 <= ones <= bits /\ bits = 128 /\
   MaskFrom ones bits = {| mask := ones; z := z6 |}) \/
  (~ (0 <= ones <= bits /\ (bits = 32 \/ bits = 128)) /\
   MaskFrom ones bits = zeroMask).
Proof.
  destruct (Z.lt_ge_cases ones 0) as [H0|H0].
  { right; right. split; [lia|]. unfold MaskFrom.
    destruct (ones <? 0) eqn:E; [reflexivity | apply Z.ltb_ge in E; lia]. }
  destruct (Z.lt_ge_cases bits ones) as [H1|H1].
  { right; right. split; [lia|]. unfold MaskFrom.
    destruct (bits <? ones) eqn:E; [|apply Z.ltb_ge in E; lia].
    now rewrite orb_true_r. }
  destruct (Z.eq_dec bits 32) as [->|H32].
  { left. repeat split; try lia. now apply MaskFrom_32. }
  destruct (Z.eq_dec bits 128) as [->|H128].
  { right; left. repeat split; try lia. now apply MaskFrom_128. }
  right; right. split; [lia|]. unfold MaskFrom.
  destruct (ones <? 0) eqn:E0; [reflexivity|].
  destruct (bits <? ones) eqn:E1; [reflexivity|]. cbn [orb].
  destruct (bits =? 32) eqn:E2; [apply Z.eqb_eq in E2; lia|].
  destruct (bits =? 128) eqn:E3; [apply Z.eqb_eq in E3; lia|].
  reflexivity.
Qed.

(** X6. [MaskFrom(ones, bits)] is valid exactly when [bits] is 32 or 128 and
    [0 <= ones <= bits]; it is then an IPv4 Mask for 32 and an IPv6 Mask for
    128, and its [Bits] is [ones].  For every other pair of arguments it is
    the zero Mask. *)
Theorem MaskFrom_spec (ones bits : Z) :
  (IsValid (MaskFrom ones bits) = true
   <-> 0 <= ones <= bits /\ (bits = 32 \/ bits = 128)) /\
  (Is4 (MaskFrom ones bits) = true <-> 0 <= ones <= bits /\ bits = 32) /\
  (Is6 (MaskFrom ones bits) = true <-> 0 <= ones <= bits /\ bits = 128) /\
  (IsValid (MaskFrom ones bits) = true -> Bits (MaskFrom ones bits) = ones) /\
  (IsValid (MaskFrom ones bits) = false -> MaskFrom ones bits = zeroMask).
Proof.
  destruct (MaskFrom_cases ones bits)
    as [(H1 & H2 & H)|[(H1 & H2 & H)|(H1 & H)]].
  - pose proof (Bits_MaskFrom_32 ones ltac:(lia)) as HB. subst bits.
    rewrite H in *. cbn.
    repeat split; try (discriminate || lia || assumption || reflexivity);
      intros; try lia; try discriminate. assumption.
  - rewrite H. cbn.
    repeat split; try (discriminate || lia || reflexivity);
      intros; try lia; discriminate.
  - rewrite H. cbn.
    repeat split; try (discriminate || reflexivity);
      intros; try lia; try discriminate.
Qed.

Lemma MaskFrom_spec_witness :
  IsValid (MaskFrom 64 128) = true /\ Bits (MaskFrom 64 128) = 64.
Proof.
  split; [reflexivity|].
  exact (proj1 (proj2 (proj2 (proj2 (MaskFrom_spec 64 128)))) eq_refl).
Defined.

(** X7. For [0 <= n <= 32] the 32-bit mask of [MaskFrom(n, 32)] is
    [2^32 - 2^(32-n)]. *)
Theorem MaskFrom_32_value (n : Z) :
  0 <= n <= 32 ->
  MaskFrom n 32 = {| mask := 2 ^ 32 - 2 ^ (32 - n); z := z4 |}.
Proof.
  intros Hn.
  assert (H : forallb
                (fun k : nat =>
                   Mask_eqb (MaskFrom (Z.of_nat k) 32)
                            {| mask := 2 ^ 32 - 2 ^ (32 - Z.of_nat k);
                               z := z4 |})
                (seq 0 33) = true) by (vm_compute; reflexivity).
  rewrite forallb_forall in H. specialize (H (Z.to_nat n)).
  rewrite Z2Nat.id in H by lia. apply Mask_eqb_eq, H, in_seq. lia.
Qed.

Lemma MaskFrom_32_value_witness :
  0 <= 20 <= 32 /\ MaskFrom 20 32 = {| mask := 0xFFFFF000; z := z4 |}.
Proof. split; [lia|]. apply (MaskFrom_32_value 20). lia. Defined.

Lemma MaskFrom_Bits_wellFormed (m : Mask) :
  wellFormed m -> Bits m <> -1 ->
  MaskFrom (Bits m) (if Is4 m then 32 else 128) = m.
Proof.
  destruct m as [w f]. unfold wellFormed, Bits, Is4, AsSlice.
  cbn [z mask family_eqb]. destruct f; intros Hw HB.
  - contradiction.
  - pose proof (PutUint32_isByte w) as Hb.
    destruct (prefixLength_cases _ Hb) as [(N & HN & HP)|[_ HP]];
      [|contradiction].
    pose proof (PrefixBits_le _ _ HN) as Hle. rewrite bitsOf_length in Hle.
    cbn [PutUint32 List.length] in Hle. rewrite HP.
    rewrite MaskFrom_32 by lia.
    apply prefix_bytes_unique in HN; [|assumption].
    cbn [PutUint32 List.length] in HN. fold (PutUint32 w) in HN.
    rewrite <- HN. now apply MaskFrom4_PutUint32.
  - now apply MaskFrom_128.
Qed.

(** X8. [MaskFrom] rebuilds a Mask from its [Bits]: for a Mask [m] returned
    by a constructor whose [Bits] is not [-1], [MaskFrom(m.Bits(), 32)] is [m]
    when [m] is IPv4 and [MaskFrom(m.Bits(), 128)] is [m] otherwise. *)
Theorem MaskFrom_Bits (m : Mask) :
  Constructed m -> Bits m <> -1 ->
  MaskFrom (Bits m) (if Is4 m then 32 else 128) = m.
Proof.
  intros Hm. apply Constructed_wellFormed in Hm.
  now apply MaskFrom_Bits_wellFormed.
Qed.

Lemma MaskFrom_Bits_witness :
  (Constructed (MaskFrom4 [255; 255; 192; 0]) /\
   Bits (MaskFrom4 [255; 255; 192; 0]) <> -1) /\
  MaskFrom 18 32 = MaskFrom4 [255; 255; 192; 0].
Proof.
  assert (H : Constructed (MaskFrom4 [255; 255; 192; 0])).
  { apply Constructed_MaskFrom4; [reflexivity|].
    repeat constructor; unfold isByte; lia. }
  assert (HB : Bits (MaskFrom4 [255; 255; 192; 0]) <> -1)
    by (vm_compute; discriminate).
  split; [split; assumption|].
  exact (MaskFrom_Bits (MaskFrom4 [255; 255; 192; 0]) H HB).
Defined.

(** X9. For a Mask returned by a constructor [Bits] is [-1] on the zero
    Mask, between [-1] and 32 on an IPv4 Mask, and between 0 and 128, never
    [-1], on an IPv6 Mask. *)
Theorem Bits_range (m : Mask) :
  Constructed m ->
  match z m with
  | z0 => Bits m = -1
  | z4 => -1 <= Bits m <= 32
  | z6 => 0 <= Bits m <= 128
  end.
Proof.
  intros Hm. apply Constructed_wellFormed in Hm.
  destruct m as [w f]. unfold wellFormed, Bits, AsSlice in *.
  cbn [z mask] in *. destruct f; [reflexivity | | assumption].
  pose proof (prefixLength_range _ (PutUint32_isByte w)) as H.
  cbn [PutUint32 List.length] in H. fold (PutUint32 w) in H. lia.
Qed.

Lemma Bits_range_witness :
  Constructed (MaskFrom4 [255; 0; 255; 0]) /\
  -1 <= Bits (MaskFrom4 [255; 0; 255; 0]) <= 32.
Proof.
  assert (H : Constructed (MaskFrom4 [255; 0; 255; 0])).
  { apply Constructed_MaskFrom4; [reflexivity|].
    repeat constructor; unfold isByte; lia. }
  split; [exact H|].
  exact (Bits_range (MaskFrom4 [255; 0; 255; 0]) H).
Defined.

(** * What [ParseUint] accepts *)

Lemma strlen_String (c : ascii) (s : string) :
  strlen (String c s) = strlen s + 1.
Proof. unfold strlen. cbn [String.length]. lia. Qed.

Lemma strlen_nonneg (s : string) : 0 <= strlen s.
Proof. unfold strlen. lia. Qed.

Lemma strlen_append (a b : string) : strlen (a ++ b) = strlen a + strlen b.
Proof. unfold strlen. rewrite length_append. lia. Qed.

Lemma strlen_zero (s : string) : strlen s = 0 -> s = EmptyString.
Proof. destruct s; [reflexivity|]. rewrite strlen_String. pose proof (strlen_nonneg s). lia. Qed.

Lemma parseLoop_ok_inv (s s0 : string) (maxVal n v : Z) :
  0 <= n -> strconv.parseLoop s0 maxVal s n = (v, nilError) ->
  isDigits s = true /\ v = decimalFrom n s /\
  (s <> EmptyString -> v <= maxVal).
Proof.
  revert n. induction s as [|c s IH]; intros n Hn H.
  - cbn in H. injection H as <-. repeat split. congruence.
  - cbn [strconv.parseLoop] in H. fold (isDigit c) in H.
    destruct (isDigit c) eqn:Hc; [|discriminate].
    pose proof (isDigit_code c Hc) as Hcode.
    change (code "0") with 48 in H. unfold strconv.maxUint64 in H.
    change ((2 ^ 64 - 1) / 10 + 1) with 1844674407370955162 in H.
    destruct (1844674407370955162 <=? n) eqn:E; [discriminate|].
    apply Z.leb_gt in E. unfold uint64, uint8 in H.
    rewrite (Z.mod_small (code c - 48)) in H by lia.
    rewrite (Z.mod_small (n * 10)) in H by lia.
    set (x := n * 10 + (code c - 48)) in *.
    destruct (x mod 2 ^ 64 <? n * 10) eqn:E1; [discriminate|].
    destruct (maxVal <? x mod 2 ^ 64) eqn:E2; [discriminate|].
    cbn [orb] in H. apply Z.ltb_ge in E1, E2.
    assert (Hx : x mod 2 ^ 64 = x).
    { destruct (Z.lt_ge_cases x (2 ^ 64)) as [Hlt|Hge];
        [apply Z.mod_small; subst x; lia|].
      exfalso. replace x with ((x - 2 ^ 64) + 1 * 2 ^ 64) in E1 by ring.
      rewrite Z_mod_plus_full, Z.mod_small in E1 by (subst x; lia).
      subst x. lia. }
    rewrite Hx in *. apply IH in H; [|subst x; lia].
    destruct H as (Hs & Hv & Hmax). cbn [isDigits decimalFrom].
    change (code "0") with 48. fold x. rewrite Hc, Hs.
    split; [reflexivity|]. split; [exact Hv|]. intros _.
    destruct s as [|c' s]; [cbn in Hv; lia | apply Hmax; discriminate].
Qed.

Lemma parseLoop_nondigit (s s0 : string) (maxVal n : Z) :
  isDigits s = false -> 0 <= n ->
  (n + 1) * 10 ^ strlen s - 1 <= maxVal -> maxVal <= strconv.maxUint64 ->
  strconv.parseLoop s0 maxVal s n
  = (0, Some (strconv.syntaxError "ParseUint" s0)).
Proof.
  revert n. induction s as [|c s IH]; intros n Hs Hn Hle Hmax;
    [discriminate|].
  cbn [isDigits] in Hs. cbn [strconv.parseLoop]. fold (isDigit c).
  destruct (isDigit c) eqn:Hc; [|reflexivity]. cbn [andb] in Hs.
  pose proof (isDigit_code c Hc) as Hcode. change (code "0") with 48.
  rewrite strlen_String, Z.pow_add_r in Hle
    by (pose proof (strlen_nonneg s); lia).
  assert (Hp : 0 < 10 ^ strlen s)
    by (apply Z.pow_pos_nonneg; [lia | apply strlen_nonneg]).
  unfold strconv.maxUint64 in *.
  change ((2 ^ 64 - 1) / 10 + 1) with 1844674407370955162.
  destruct (1844674407370955162 <=? n) eqn:E; [apply Z.leb_le in E; nia|].
  unfold uint64, uint8. rewrite (Z.mod_small (code c - 48)) by lia.
  rewrite (Z.mod_small (n * 10)) by nia.
  rewrite (Z.mod_small (n * 10 + (code c - 48))) by nia.
  destruct (n * 10 + (code c - 48) <? n * 10) eqn:E1;
    [apply Z.ltb_lt in E1; lia|].
  destruct (maxVal <? n * 10 + (code c - 48)) eqn:E2;
    [apply Z.ltb_lt in E2; nia|].
  cbn [orb]. apply IH; try assumption; nia.
Qed.

Lemma ParseUint10_8_field (s : string) :
  isField s ->
  strconv.ParseUint10 s 8 = (decimalValue s, nilError) /\
  isByte (decimalValue s).
Proof.
  intros (Hne & Hs & Hv).
  pose proof (decimalFrom_bounds s 0 Hs ltac:(lia)) as [Hlo _].
  fold (decimalValue s) in Hlo.
  split; [|unfold isByte; lia].
  unfold strconv.ParseUint10. destruct s as [|c s]; [contradiction|].
  cbn [String.eqb andb negb Z.eqb Z.ltb Z.compare orb Pos.compare
       Pos.compare_cont Pos.eqb].
  change (uint64 (uint64 (Z.shiftl 1 8) - 1)) with 255.
  apply parseLoop_digits; try assumption; unfold strconv.maxUint64; lia.
Qed.

Lemma ParseUint10_8_inv (s : string) (v : Z) :
  strconv.ParseUint10 s 8 = (v, nilError) -> isField s /\ v = decimalValue s.
Proof.
  unfold strconv.ParseUint10. destruct s as [|c s]; [discriminate|].
  cbn [String.eqb andb negb Z.eqb Z.ltb Z.compare orb Pos.compare
       Pos.compare_cont Pos.eqb].
  change (uint64 (uint64 (Z.shiftl 1 8) - 1)) with 255.
  intros H. apply parseLoop_ok_inv in H; [|lia].
  destruct H as (Hs & Hv & Hmax). unfold isField, decimalValue.
  rewrite <- Hv. repeat split; try assumption; try discriminate.
  apply Hmax. discriminate.
Qed.

Lemma isDigits_no_dot (s : string) :
  isDigits s = true -> strings.Index s "." = None.
Proof.
  induction s as [|c s IH]; [reflexivity|]. cbn [isDigits strings.Index].
  intros H. apply andb_prop in H as [Hc Hs].
  destruct (Ascii.eqb_spec c "."%char) as [->|_]; [discriminate|].
  now rewrite IH.
Qed.

(** X10. [UnmarshalText] of one to three characters: when all are decimal
    digits it returns [nil] and stores [MaskFrom(value, 128)], so leading
    zeros are accepted and a value of at most 128 gives the IPv6 Mask of
    that length; when any is not a digit it returns the syntax error of
    [ParseUint] and stores nothing. *)
Theorem UnmarshalText_prefix (text : string) (r : Mask) :
  1 <= strlen text <= 3 ->
  (isDigits text = true ->
   UnmarshalText text r = (nilError, MaskFrom (decimalValue text) 128) /\
   (decimalValue text <= 128 ->
    UnmarshalText text r
    = (nilError, {| mask := decimalValue text; z := z6 |}))) /\
  (isDigits text = false ->
   UnmarshalText text r = (Some (strconv.syntaxError "ParseUint" text), r)).
Proof.
  intros Hlen. unfold UnmarshalText.
  destruct (strlen text =? 0) eqn:E0; [apply Z.eqb_eq in E0; lia|].
  destruct (1 <=? strlen text) eqn:E1; [|apply Z.leb_gt in E1; lia].
  destruct (strlen text <=? 3) eqn:E3; [|apply Z.leb_gt in E3; lia].
  cbn [andb]. split.
  - intros Hs. destruct (ParseUint10_digits text Hs Hlen) as [HP Hr].
    rewrite HP. unfold nilError, bind, store, ret, int.
    destruct (decimalValue text <? 2 ^ 63) eqn:E;
      [|apply Z.ltb_ge in E; lia].
    split; [reflexivity|]. intros Hv. now rewrite MaskFrom_128 by lia.
  - intros Hs. unfold strconv.ParseUint10.
    destruct text as [|c s]; [discriminate|].
    cbn [String.eqb andb negb Z.eqb Z.ltb Z.compare orb].
    change (uint64 (uint64 (Z.shiftl 1 64) - 1)) with strconv.maxUint64.
    rewrite parseLoop_nondigit; try assumption; try lia.
    + reflexivity.
    + assert (H10 : 10 ^ strlen (String c s) <= 10 ^ 3)
        by (apply Z.pow_le_mono_r; lia).
      unfold strconv.maxUint64. lia.
Qed.

Lemma UnmarshalText_prefix_witness :
  1 <= strlen "064" <= 3 /\
  UnmarshalText "064" zeroMask = (nilError, {| mask := 64; z := z6 |}) /\
  UnmarshalText "6a" zeroMask
  = (Some (strconv.syntaxError "ParseUint" "6a"), zeroMask).
Proof.
  assert (H : 1 <= strlen "064" <= 3) by (vm_compute; split; discriminate).
  split; [exact H|]. split; [|reflexivity].
  destruct (UnmarshalText_prefix "064" zeroMask H) as [HT _].
  destruct (HT eq_refl) as [_ HT']. apply HT'. vm_compute. discriminate.
Defined.

(** * What [SplitN] returns *)

Lemma Index_Some_cut (s : string) (sep : ascii) (m : nat) :
  strings.Index s sep = Some m ->
  s = (substring 0 m s
       ++ String sep (substring (m + 1) (String.length s - (m + 1)) s))%string
  /\ strings.Count s sep
     = 1 + strings.Count
             (substring (m + 1) (String.length s - (m + 1)) s) sep.
Proof.
  revert m. induction s as [|c s IH]; intros m H; [discriminate|].
  cbn [strings.Index strings.Count] in *.
  destruct (Ascii.eqb_spec c sep) as [->|Hne].
  - injection H as <-. cbn [Nat.add String.length substring append].
    replace (S (String.length s) - 1)%nat with (String.length s) by lia.
    rewrite substring_all. split; reflexivity.
  - destruct (strings.Index s sep) as [m'|] eqn:E; [|discriminate].
    injection H as <-. destruct (IH m' eq_refl) as [H1 H2].
    cbn [Nat.add String.length substring append Nat.sub].
    rewrite <- H1. split; [reflexivity|]. rewrite H2. lia.
Qed.

Lemma Index_None_Count (s : string) (sep : ascii) :
  strings.Index s sep = None -> strings.Count s sep = 0.
Proof.
  induction s as [|c s IH]; [reflexivity|].
  cbn [strings.Index strings.Count].
  destruct (c =? sep)%char; [discriminate|].
  destruct (strings.Index s sep); [discriminate|]. intros _. now rewrite IH.
Qed.

Lemma Count_nonneg (s : string) (sep : ascii) : 0 <= strings.Count s sep.
Proof.
  induction s as [|c s IH]; cbn [strings.Count]; [lia|].
  destruct (c =? sep)%char; lia.
Qed.

Lemma genSplitLoop_length (n : nat) (s : string) (sep : ascii) :
  Z.of_nat (List.length (strings.genSplitLoop n s sep))
  = Z.min (Z.of_nat n) (strings.Count s sep) + 1.
Proof.
  revert s. induction n as [|n IH]; intros s; cbn [strings.genSplitLoop].
  - pose proof (Count_nonneg s sep). cbn [List.length]. lia.
  - destruct (strings.Index s sep) as [m|] eqn:E.
    + destruct (Index_Some_cut s sep m E) as [_ HC].
      cbn [List.length]. rewrite Nat2Z.inj_succ, IH, HC. lia.
    + rewrite (Index_None_Count s sep E). cbn [List.length]. lia.
Qed.

Lemma genSplitLoop_cons_inv (n : nat) (s : string) (sep : ascii)
      (a b : string) (l : list string) :
  strings.genSplitLoop (S n) s sep = a :: b :: l ->
  exists rest, s = (a ++ String sep rest)%string /\
               strings.genSplitLoop n rest sep = b :: l.
Proof.
  cbn [strings.genSplitLoop].
  destruct (strings.Index s sep) as [m|] eqn:E; [|discriminate].
  intros H. injection H as Ha Hl.
  destruct (Index_Some_cut s sep m E) as [Hs _].
  eexists. split; [|exact Hl]. now rewrite <- Ha.
Qed.

Lemma SplitN_4_inv (text a b c d : string) :
  3 <= strlen text ->
  strings.SplitN text "." 4 = [a; b; c; d] -> text = dotted a b c d.
Proof.
  intros Hlen. unfold strings.SplitN.
  change (4 =? 0) with false. change (4 <? 0) with false. cbv iota.
  destruct (strlen text + 1 <? 4) eqn:E; [apply Z.ltb_lt in E; lia|].
  change (Z.to_nat (4 - 1)) with 3%nat. intros H.
  apply genSplitLoop_cons_inv in H as (r1 & -> & H).
  apply genSplitLoop_cons_inv in H as (r2 & -> & H).
  apply genSplitLoop_cons_inv in H as (r3 & -> & H).
  cbn [strings.genSplitLoop] in H. injection H as ->. reflexivity.
Qed.

Lemma SplitN_4_length (text : string) :
  3 <= strlen text ->
  Z.of_nat (List.length (strings.SplitN text "." 4))
  = Z.min 3 (strings.Count text ".") + 1.
Proof.
  intros Hlen. unfold strings.SplitN.
  change (4 =? 0) with false. change (4 <? 0) with false. cbv iota.
  destruct (strlen text + 1 <? 4) eqn:E; [apply Z.ltb_lt in E; lia|].
  change (Z.to_nat (4 - 1)) with 3%nat. apply genSplitLoop_length.
Qed.

(** * The dotted-quad branch of [UnmarshalText] *)

Lemma isField_strlen (s : string) : isField s -> 1 <= strlen s.
Proof.
  intros (Hne & _). destruct s; [contradiction|].
  rewrite strlen_String. pose proof (strlen_nonneg s). lia.
Qed.

Lemma strlen_dotted (f1 f2 f3 f4 : string) :
  strlen (dotted f1 f2 f3 f4)
  = strlen f1 + strlen f2 + strlen f3 + strlen f4 + 3.
Proof.
  unfold dotted.
  rewrite strlen_append, strlen_String, strlen_append, strlen_String,
    strlen_append, strlen_String. lia.
Qed.

Lemma UnmarshalText_in_quad_range (text : string) (r : Mask) :
  7 <= strlen text <= 15 ->
  UnmarshalText text r =
  if negb (Z.of_nat (List.length (strings.SplitN text "." 4)) =? 4)
  then (Some (errorString "unexpected slice type"), r)
  else match parseFields (strings.SplitN text "." 4) with
       | inr err => (Some err, r)
       | inl fields =>
           (nilError,
            {| mask := uint32 (Z.lor (Z.lor (Z.lor (shl32 (nth 0 fields 0) 24)
                                                   (shl32 (nth 1 fields 0) 16))
                                            (shl32 (nth 2 fields 0) 8))
                                     (nth 3 fields 0));
               z := z4 |})
       end.
Proof.
  intros Hlen. unfold UnmarshalText.
  change (strlen "1.1.1.1") with 7. change (strlen "255.255.255.255") with 15.
  destruct (strlen text =? 0) eqn:E0; [apply Z.eqb_eq in E0; lia|].
  destruct (strlen text <=? 3) eqn:E3; [apply Z.leb_le in E3; lia|].
  rewrite andb_false_r.
  destruct (7 <=? strlen text) eqn:E7; [|apply Z.leb_gt in E7; lia].
  destruct (strlen text <=? 15) eqn:E15; [|apply Z.leb_gt in E15; lia].
  cbn [andb].
  destruct (negb _); [reflexivity|].
  destruct (parseFields _); reflexivity.
Qed.

Lemma parseFields_fields (sub : list string) :
  Forall isField sub -> parseFields sub = inl (map decimalValue sub).
Proof.
  induction 1 as [|s sub Hs _ IH]; [reflexivity|].
  destruct (ParseUint10_8_field s Hs) as [HP Hb].
  cbn [parseFields map]. rewrite HP, IH. unfold nilError.
  unfold uint32, isByte in *. now rewrite Z.mod_small by lia.
Qed.

Lemma parseFields_inv (sub : list string) (fields : list Z) :
  parseFields sub = inl fields ->
  Forall isField sub /\ fields = map decimalValue sub.
Proof.
  revert fields. induction sub as [|s sub IH]; intros fields H.
  - injection H as <-. split; [constructor | reflexivity].
  - cbn [parseFields] in H.
    destruct (strconv.ParseUint10 s 8) as [f [e|]] eqn:EP; [discriminate|].
    destruct (parseFields sub) as [fs|e] eqn:EF; [|discriminate].
    injection H as <-. apply ParseUint10_8_inv in EP as [Hs ->].
    destruct (IH fs eq_refl) as [Hsub ->].
    split; [now constructor|]. cbn [map]. f_equal.
    destruct (ParseUint10_8_field s Hs) as [_ Hb].
    unfold uint32, isByte in *. apply Z.mod_small. lia.
Qed.

Lemma quad_mask (v1 v2 v3 v4 : Z) :
  isByte v1 -> isByte v2 -> isByte v3 -> isByte v4 ->
  {| mask := uint32 (Z.lor (Z.lor (Z.lor (shl32 v1 24) (shl32 v2 16))
                                  (shl32 v3 8)) v4);
     z := z4 |}
  = MaskFrom4 [v1; v2; v3; v4].
Proof.
  intros H1 H2 H3 H4. unfold MaskFrom4. cbn [nth].
  assert (H32 : forall v, isByte v -> uint32 v = v).
  { intros v Hv. unfold uint32, isByte in *. apply Z.mod_small. lia. }
  now rewrite !(H32 v1 H1), !(H32 v2 H2), !(H32 v3 H3), !(H32 v4 H4).
Qed.

Lemma UnmarshalText_dotted_fields (f1 f2 f3 f4 : string) (r : Mask) :
  isField f1 -> isField f2 -> isField f3 -> isField f4 ->
  strlen (dotted f1 f2 f3 f4) <= 15 ->
  UnmarshalText (dotted f1 f2 f3 f4) r
  = (nilError, MaskFrom4 [decimalValue f1; decimalValue f2;
                          decimalValue f3; decimalValue f4]).
Proof.
  intros H1 H2 H3 H4 Hlen.
  pose proof (isField_strlen _ H1). pose proof (isField_strlen _ H2).
  pose proof (isField_strlen _ H3). pose proof (isField_strlen _ H4).
  rewrite UnmarshalText_in_quad_range
    by (rewrite strlen_dotted in *; lia).
  unfold dotted at 1 2.
  rewrite SplitN_fields by (apply isDigits_no_dot; apply H1 || apply H2 || apply H3).
  cbn [List.length Z.of_nat Pos.of_succ_nat Pos.succ Z.eqb Pos.eqb negb].
  rewrite parseFields_fields
    by (repeat (apply Forall_cons; [assumption|]); apply Forall_nil).
  cbn [map nth]. f_equal.
  apply quad_mask; now apply ParseUint10_8_field.
Qed.

(** X11. [UnmarshalText] accepts every dotted quad of at most 15 characters
    whose four fields are non-empty runs of decimal digits denoting at most
    255, leading zeros included, and stores [MaskFrom4] of the four
    values. *)
Theorem UnmarshalText_dotted (f1 f2 f3 f4 : string) (r : Mask) :
  isField f1 -> isField f2 -> isField f3 -> isField f4 ->
  strlen (dotted f1 f2 f3 f4) <= 15 ->
  UnmarshalText (dotted f1 f2 f3 f4) r
  = (nilError, MaskFrom4 [decimalValue f1; decimalValue f2;
                          decimalValue f3; decimalValue f4]).
Proof. apply UnmarshalText_dotted_fields. Qed.

Lemma UnmarshalText_dotted_witness :
  (isField "010" /\ isField "0" /\ isField "00" /\ isField "1") /\
  UnmarshalText "010.0.00.1" zeroMask = (nilError, MaskFrom4 [10; 0; 0; 1]).
Proof.
  assert (F : forall s, s <> EmptyString -> isDigits s = true ->
                        decimalValue s <= 255 -> isField s)
    by (intros s H1 H2 H3; repeat split; assumption).
  assert (H1 : isField "010")
    by (apply F; [discriminate | reflexivity | vm_compute; discriminate]).
  assert (H2 : isField "0")
    by (apply F; [discriminate | reflexivity | vm_compute; discriminate]).
  assert (H3 : isField "00")
    by (apply F; [discriminate | reflexivity | vm_compute; discriminate]).
  assert (H4 : isField "1")
    by (apply F; [discriminate | reflexivity | vm_compute; discriminate]).
  split; [exact (conj H1 (conj H2 (conj H3 H4)))|].
  apply (UnmarshalText_dotted "010" "0" "00" "1" zeroMask H1 H2 H3 H4).
  vm_compute. discriminate.
Defined.

(** * The branches of [UnmarshalText] by length *)

Lemma UnmarshalText_in_prefix_range (text : string) (r : Mask) :
  1 <= strlen text <= 3 ->
  UnmarshalText text r =
  match strconv.ParseUint10 text 64 with
  | (_, Some err) => (Some err, r)
  | (u, None) => (nilError, MaskFrom (int u) 128)
  end.
Proof.
  intros Hlen. unfold UnmarshalText.
  destruct (strlen text =? 0) eqn:E0; [apply Z.eqb_eq in E0; lia|].
  destruct (1 <=? strlen text) eqn:E1; [|apply Z.leb_gt in E1; lia].
  destruct (strlen text <=? 3) eqn:E3; [|apply Z.leb_gt in E3; lia].
  cbn [andb]. now destruct (strconv.ParseUint10 text 64) as [u [e|]].
Qed.

Lemma UnmarshalText_bad_length (text : string) (r : Mask) :
  4 <= strlen text <= 6 \/ 15 < strlen text ->
  UnmarshalText text r = (Some (errorString "unexpected slice size"), r).
Proof.
  intros Hlen. unfold UnmarshalText.
  change (strlen "1.1.1.1") with 7. change (strlen "255.255.255.255") with 15.
  destruct (strlen text =? 0) eqn:E0; [apply Z.eqb_eq in E0; lia|].
  destruct (strlen text <=? 3) eqn:E3; [apply Z.leb_le in E3; lia|].
  rewrite andb_false_r.
  destruct (7 <=? strlen text) eqn:E7;
    [|reflexivity].
  destruct (strlen text <=? 15) eqn:E15; [|reflexivity].
  apply Z.leb_le in E7, E15. lia.
Qed.

Lemma ParseUint10_64_nondigit (text : string) :
  1 <= strlen text <= 3 -> isDigits text = false ->
  strconv.ParseUint10 text 64
  = (0, Some (strconv.syntaxError "ParseUint" text)).
Proof.
  intros Hlen Hs. unfold strconv.ParseUint10.
  destruct text as [|c s]; [discriminate|].
  cbn [String.eqb andb negb Z.eqb Z.ltb Z.compare orb].
  change (uint64 (uint64 (Z.shiftl 1 64) - 1)) with strconv.maxUint64.
  apply parseLoop_nondigit; try assumption; try lia.
  assert (H10 : 10 ^ strlen (String c s) <= 10 ^ 3)
    by (apply Z.pow_le_mono_r; lia).
  unfold strconv.maxUint64. lia.
Qed.

Lemma parseLoop_error_form (s s0 : string) (maxVal n v : Z) (e : error) :
  strconv.parseLoop s0 maxVal s n = (v, Some e) ->
  exists err, e = NumError "ParseUint" s0 err.
Proof.
  revert n. induction s as [|c s IH]; intros n H; [discriminate|].
  cbn [strconv.parseLoop] in H.
  destruct ((code "0" <=? code c) && (code c <=? code "9"));
    [|injection H as _ <-; eexists; reflexivity].
  destruct (strconv.maxUint64 / 10 + 1 <=? n);
    [injection H as _ <-; eexists; reflexivity|].
  destruct (_ || _); [injection H as _ <-; eexists; reflexivity|].
  now apply IH in H.
Qed.

Lemma ParseUint10_error_form (s : string) (bitSize v : Z) (e : error) :
  strconv.ParseUint10 s bitSize = (v, Some e) ->
  exists err, e = NumError "ParseUint" s err.
Proof.
  unfold strconv.ParseUint10.
  destruct (s =? "")%string; [intros H; injection H as _ <-; eexists; reflexivity|].
  destruct (negb (bitSize =? 0) && ((bitSize <? 0) || (64 <? bitSize)));
    [intros H; injection H as _ <-; eexists; reflexivity|].
  apply parseLoop_error_form.
Qed.

Lemma parseFields_error_form (sub : list string) (e : error) :
  parseFields sub = inr e ->
  exists num err, e = NumError "ParseUint" num err.
Proof.
  induction sub as [|s sub IH]; [discriminate|]. cbn [parseFields].
  destruct (strconv.ParseUint10 s 8) as [f [e'|]] eqn:EP.
  - intros H. injection H as <-.
    apply ParseUint10_error_form in EP as [err ->]. now exists s, err.
  - destruct (parseFields sub) as [fs|e'] eqn:EF; [discriminate|].
    intros H. injection H as <-. now apply IH.
Qed.

Lemma length4_strings (l : list string) :
  Z.of_nat (List.length l) = 4 -> exists a b c d, l = [a; b; c; d].
Proof.
  destruct l as [|a [|b [|c [|d [|]]]]]; cbn [List.length]; try lia.
  intros _. now exists a, b, c, d.
Qed.

(** X12. The texts [UnmarshalText] decodes without error are exactly: the
    empty text; one to three decimal digits; and the dotted quads of at most
    15 characters whose four fields are non-empty runs of decimal digits
    denoting at most 255. *)
Theorem UnmarshalText_accepts (text : string) (r : Mask) :
  fst (UnmarshalText text r) = nilError <->
  text = EmptyString \/
  (1 <= strlen text <= 3 /\ isDigits text = true) \/
  (strlen text <= 15 /\
   exists f1 f2 f3 f4 : string,
     text = dotted f1 f2 f3 f4 /\
     isField f1 /\ isField f2 /\ isField f3 /\ isField f4).
Proof.
  split.
  - intros H. pose proof (strlen_nonneg text) as H0.
    assert (Hc : strlen text = 0 \/ 1 <= strlen text <= 3 \/
                 (4 <= strlen text <= 6 \/ 15 < strlen text) \/
                 7 <= strlen text <= 15) by lia.
    destruct Hc as [Hc|[Hc|[Hc|Hc]]].
    + left. now apply strlen_zero.
    + right; left. split; [exact Hc|].
      destruct (isDigits text) eqn:Hs; [reflexivity|].
      rewrite UnmarshalText_in_prefix_range in H by assumption.
      rewrite ParseUint10_64_nondigit in H by assumption. discriminate.
    + rewrite UnmarshalText_bad_length in H by assumption. discriminate.
    + right; right. split; [lia|].
      rewrite UnmarshalText_in_quad_range in H by assumption.
      destruct (Z.of_nat (List.length (strings.SplitN text "." 4)) =? 4)
        eqn:E4; [|discriminate].
      cbn [negb] in H. apply Z.eqb_eq in E4.
      destruct (length4_strings _ E4) as (a & b & c & d & Hsub).
      rewrite Hsub in H.
      destruct (parseFields [a; b; c; d]) as [fields|e] eqn:EF;
        [|discriminate].
      apply parseFields_inv in EF as [HF _].
      apply SplitN_4_inv in Hsub; [|lia].
      exists a, b, c, d. split; [exact Hsub|].
      inversion HF as [|? ? Ha HF1]; subst.
      inversion HF1 as [|? ? Hb HF2]; subst.
      inversion HF2 as [|? ? Hc' HF3]; subst.
      inversion HF3 as [|? ? Hd _]; subst. auto.
  - intros [->|[[Hlen Hs]|[Hlen (f1 & f2 & f3 & f4 & -> & H1 & H2 & H3 & H4)]]].
    + reflexivity.
    + rewrite UnmarshalText_in_prefix_range by assumption.
      destruct (ParseUint10_digits text Hs Hlen) as [-> _]. reflexivity.
    + now rewrite UnmarshalText_dotted_fields.
Qed.

Lemma UnmarshalText_accepts_witness :
  (1 <= strlen "12" <= 3 /\ isDigits "12" = true) /\
  fst (UnmarshalText "12" zeroMask) = nilError.
Proof.
  assert (H : 1 <= strlen "12" <= 3 /\ isDigits "12" = true)
    by (vm_compute; repeat split; discriminate).
  split; [exact H|].
  exact (proj2 (UnmarshalText_accepts "12" zeroMask)
           (or_intror (or_introl H))).
Defined.

(** X13. The errors of [UnmarshalText]: a text of 4 to 6 or of more than 15
    characters is rejected with "unexpected slice size"; a text of 7 to 15
    characters with fewer than three dots is rejected with "unexpected
    slice type"; and with three dots or more it is either decoded or
    rejected with a [NumError] of [ParseUint].  The receiver is unchanged
    in every rejection. *)
Theorem UnmarshalText_errors (text : string) (r : Mask) :
  (4 <= strlen text <= 6 \/ 15 < strlen text ->
   UnmarshalText text r = (Some (errorString "unexpected slice size"), r)) /\
  (7 <= strlen text <= 15 -> strings.Count text "." < 3 ->
   UnmarshalText text r = (Some (errorString "unexpected slice type"), r)) /\
  (7 <= strlen text <= 15 -> 3 <= strings.Count text "." ->
   fst (UnmarshalText text r) = nilError \/
   exists (num : string) (err : error),
     UnmarshalText text r = (Some (NumError "ParseUint" num err), r)).
Proof.
  split; [apply UnmarshalText_bad_length|]. split.
  - intros Hlen HC. rewrite UnmarshalText_in_quad_range by assumption.
    pose proof (SplitN_4_length text ltac:(lia)) as HL.
    destruct (Z.of_nat (List.length (strings.SplitN text "." 4)) =? 4)
      eqn:E4; [apply Z.eqb_eq in E4; lia | reflexivity].
  - intros Hlen HC. rewrite UnmarshalText_in_quad_range by assumption.
    pose proof (SplitN_4_length text ltac:(lia)) as HL.
    destruct (Z.of_nat (List.length (strings.SplitN text "." 4)) =? 4)
      eqn:E4; [|apply Z.eqb_neq in E4; lia].
    cbn [negb].
    destruct (parseFields (strings.SplitN text "." 4)) as [fields|e] eqn:EF.
    + left. reflexivity.
    + right. apply parseFields_error_form in EF as (num & err & ->).
      now exists num, err.
Qed.

Lemma UnmarshalText_errors_witness :
  (4 <= strlen "1.2.3" <= 6 \/ 15 < strlen "1.2.3") /\
  UnmarshalText "1.2.3" (MaskFrom 8 32)
  = (Some (errorString "unexpected slice size"), MaskFrom 8 32).
Proof.
  assert (H : 4 <= strlen "1.2.3" <= 6 \/ 15 < strlen "1.2.3")
    by (left; vm_compute; split; discriminate).
  split; [exact H|].
  exact (proj1 (UnmarshalText_errors "1.2.3" (MaskFrom 8 32)) H).
Defined.

(** * Decoders and constructors *)

(** X14. Decoding never makes a Mask the constructors cannot return: after
    [UnmarshalBinary] of any bytes or [UnmarshalText] of any text, with or
    without an error, a receiver that held a constructor's result holds one
    again; so it satisfies the representation invariant. *)
Theorem decoders_construct (r : Mask) :
  Constructed r ->
  (forall b : list Z,
      Forall isByte b -> Constructed (snd (UnmarshalBinary b r))) /\
  (forall text : string, Constructed (snd (UnmarshalText text r))) /\
  (forall b : list Z,
      Forall isByte b -> wellFormed (snd (UnmarshalBinary b r))) /\
  (forall text : string, wellFormed (snd (UnmarshalText text r))).
Proof.
  intros Hr.
  assert (HB : forall b, Forall isByte b ->
                         Constructed (snd (UnmarshalBinary b r))).
  { intros b Hb. unfold UnmarshalBinary.
    destruct (Z.of_nat (List.length b) =? 0); [apply Constructed_zero|].
    destruct (Z.of_nat (List.length b) =? 4) eqn:E4.
    { apply Z.eqb_eq in E4. apply Constructed_MaskFrom4; [lia | assumption]. }
    destruct (Z.of_nat (List.length b) =? 1); [apply Constructed_MaskFrom|].
    exact Hr. }
  assert (HT : forall text, Constructed (snd (UnmarshalText text r))).
  { intros text. pose proof (strlen_nonneg text) as H0.
    assert (Hc : strlen text = 0 \/ 1 <= strlen text <= 3 \/
                 (4 <= strlen text <= 6 \/ 15 < strlen text) \/
                 7 <= strlen text <= 15) by lia.
    destruct Hc as [Hc|[Hc|[Hc|Hc]]].
    - apply strlen_zero in Hc. subst text. apply Constructed_zero.
    - rewrite UnmarshalText_in_prefix_range by assumption.
      destruct (strconv.ParseUint10 text 64) as [u [e|]];
        [exact Hr | apply Constructed_MaskFrom].
    - now rewrite UnmarshalText_bad_length.
    - rewrite UnmarshalText_in_quad_range by assumption.
      destruct (Z.of_nat (List.length (strings.SplitN text "." 4)) =? 4)
        eqn:E4; [|exact Hr].
      cbn [negb]. apply Z.eqb_eq in E4.
      destruct (length4_strings _ E4) as (a & b & c & d & ->).
      destruct (parseFields [a; b; c; d]) as [fields|e] eqn:EF;
        [|exact Hr].
      apply parseFields_inv in EF as [HF ->].
      inversion HF as [|? ? Ha HF1]; subst.
      inversion HF1 as [|? ? Hb HF2]; subst.
      inversion HF2 as [|? ? Hc' HF3]; subst.
      inversion HF3 as [|? ? Hd _]; subst.
      apply ParseUint10_8_field in Ha as [_ Ha], Hb as [_ Hb],
          Hc' as [_ Hc'], Hd as [_ Hd].
      cbn [snd map nth]. rewrite quad_mask by assumption.
      apply Constructed_MaskFrom4; [reflexivity|].
      repeat (apply Forall_cons; [assumption|]). apply Forall_nil. }
  split; [exact HB|]. split; [exact HT|]. split.
  - intros b Hb. apply Constructed_wellFormed. now apply HB.
  - intros text. apply Constructed_wellFormed. apply HT.
Qed.

Lemma decoders_construct_witness :
  Constructed (MaskFrom 8 32) /\
  wellFormed (snd (UnmarshalText "999" (MaskFrom 8 32))).
Proof.
  split; [apply Constructed_MaskFrom|].
  exact (proj2 (proj2 (proj2 (decoders_construct (MaskFrom 8 32)
                                (Constructed_MaskFrom 8 32))))
           "999"%string).
Defined.

(** * Appending, sizes and the String method *)

Lemma append_nil_r (s : string) : (s ++ "")%string = s.
Proof. induction s as [|c s IH]; cbn; [reflexivity | now rewrite IH]. Qed.

(** X15. [AppendBinary] and [AppendText] never return an error and only
    extend the buffer they are given: the result is the buffer followed by
    what [MarshalBinary], respectively [MarshalText], returns. *)
Theorem Append_extends (m : Mask) (b : list Z) (t : string) :
  AppendBinary m b = (b ++ fst (MarshalBinary m), nilError) /\
  AppendText m t = ((t ++ fst (MarshalText m))%string, nilError).
Proof.
  unfold MarshalBinary, MarshalText, AppendBinary, AppendText.
  destruct (z m); cbn [fst app append].
  - now rewrite app_nil_r, append_nil_r.
  - split; [reflexivity|]. f_equal.
    unfold appendTextIPv4, strconv.AppendUint10. cbn [append].
    now rewrite !append_assoc.
  - split; reflexivity.
Qed.

Lemma digitCount_check_all : forallb digitCount_check allBytes = true.
Proof. vm_compute. reflexivity. Qed.

Lemma FormatUint10_length (v : Z) :
  isByte v -> strlen (strconv.FormatUint10 v) = digitCount v.
Proof.
  intros Hv. pose proof (forall_bytes _ digitCount_check_all v Hv) as H.
  now apply Z.eqb_eq in H.
Qed.

(** X16. For a Mask returned by a constructor, [marshalBinarySize] is the
    length of the binary encoding.  [marshalTextSize] is the length of the
    text for the zero Mask and bounds it for IPv4, whose text has 7 to 15
    characters; for IPv6 it is 1 while the text has as many characters as
    the prefix length has decimal digits, so a length of 10 or more
    outgrows it. *)
Theorem marshal_sizes (m : Mask) :
  Constructed m ->
  marshalBinarySize m = Z.of_nat (List.length (fst (MarshalBinary m))) /\
  match z m with
  | z0 => strlen (fst (MarshalText m)) = 0 /\ marshalTextSize m = 0
  | z4 => 7 <= strlen (fst (MarshalText m)) <= marshalTextSize m /\
          marshalTextSize m = 15
  | z6 => strlen (fst (MarshalText m)) = digitCount (mask m) /\
          marshalTextSize m = 1
  end.
Proof.
  intros Hm. apply Constructed_wellFormed in Hm.
  destruct m as [w f]. unfold wellFormed in Hm. cbn [z mask] in *.
  destruct f.
  - split; [reflexivity | split; reflexivity].
  - split; [reflexivity|].
    unfold MarshalText, AppendText, marshalTextSize. cbn [z fst].
    change (strlen "255.255.255.255") with 15.
    rewrite appendTextIPv4_fields. fold (dotted
      (strconv.FormatUint10 (uint8 (Z.shiftr w 24)))
      (strconv.FormatUint10 (uint8 (Z.shiftr w 16)))
      (strconv.FormatUint10 (uint8 (Z.shiftr w 8)))
      (strconv.FormatUint10 (uint8 w))).
    rewrite strlen_dotted.
    destruct (field_facts _ (uint8_isByte (Z.shiftr w 24))) as [L1 _].
    destruct (field_facts _ (uint8_isByte (Z.shiftr w 16))) as [L2 _].
    destruct (field_facts _ (uint8_isByte (Z.shiftr w 8))) as [L3 _].
    destruct (field_facts _ (uint8_isByte w)) as [L4 _].
    split; [lia | reflexivity].
  - split; [reflexivity|].
    unfold MarshalText, AppendText, marshalTextSize. cbn [z mask fst].
    unfold strconv.AppendUint10, uint64. rewrite Z.mod_small by lia.
    cbn [append]. split; [|reflexivity].
    apply FormatUint10_length. unfold isByte. lia.
Qed.

Lemma marshal_sizes_witness :
  Constructed (MaskFrom 64 128) /\
  strlen (fst (MarshalText (MaskFrom 64 128))) = 2 /\
  marshalTextSize (MaskFrom 64 128) = 1.
Proof.
  split; [apply Constructed_MaskFrom|].
  exact (proj2 (marshal_sizes (MaskFrom 64 128)
                  (Constructed_MaskFrom 64 128))).
Defined.

(** X17. [String] returns the text of [MarshalText] for every valid Mask, so
    [UnmarshalText] decodes the [String] of a valid constructed Mask back
    to it; for the zero Mask [String] returns "invalid Mask", which
    [UnmarshalText] rejects. *)
Theorem String_spec (m r : Mask) :
  String_ zeroMask = "invalid Mask"%string /\
  (IsValid m = true -> String_ m = fst (MarshalText m)) /\
  (Constructed m -> IsValid m = true ->
   UnmarshalText (String_ m) r = (nilError, m)) /\
  UnmarshalText (String_ zeroMask) r
  = (Some (errorString "unexpected slice type"), r).
Proof.
  assert (HS : IsValid m = true -> String_ m = fst (MarshalText m)).
  { unfold IsValid, String_, MarshalText, AppendText.
    destruct (z m); cbn [family_eqb negb fst];
      [discriminate | reflexivity | reflexivity]. }
  split; [reflexivity|]. split; [exact HS|]. split; [|reflexivity].
  intros Hm Hv. rewrite (HS Hv). apply Constructed_wellFormed in Hm.
  now apply text_roundtrip_wellFormed.
Qed.

Lemma String_spec_witness :
  (Constructed (MaskFrom 24 32) /\ IsValid (MaskFrom 24 32) = true) /\
  String_ (MaskFrom 24 32) = "255.255.255.0"%string /\
  UnmarshalText (String_ (MaskFrom 24 32)) zeroMask
  = (nilError, MaskFrom 24 32).
Proof.
  split; [split; [apply Constructed_MaskFrom | reflexivity]|].
  split; [reflexivity|].
  exact (proj1 (proj2 (proj2 (String_spec (MaskFrom 24 32) zeroMask)))
           (Constructed_MaskFrom 24 32) eq_refl).
Defined.

(** X18. The encodings tell Masks apart: two Masks returned by constructors
    that have the same [MarshalBinary] output, or the same [MarshalText]
    output, are equal. *)
Theorem Marshal_injective (m1 m2 : Mask) :
  Constructed m1 -> Constructed m2 ->
  (fst (MarshalBinary m1) = fst (MarshalBinary m2) -> m1 = m2) /\
  (fst (MarshalText m1) = fst (MarshalText m2) -> m1 = m2).
Proof.
  intros H1 H2. apply Constructed_wellFormed in H1, H2. split; intros H.
  - destruct (binary_roundtrip_wellFormed m1 zeroMask H1) as (_ & E1 & _).
    destruct (binary_roundtrip_wellFormed m2 zeroMask H2) as (_ & E2 & _).
    rewrite H in E1. congruence.
  - destruct (text_roundtrip_wellFormed m1 zeroMask H1) as (_ & E1).
    destruct (text_roundtrip_wellFormed m2 zeroMask H2) as (_ & E2).
    rewrite H in E1. congruence.
Qed.

Lemma Marshal_injective_witness :
  (Constructed (MaskFrom 24 32) /\
   Constructed (MaskFrom4 [255; 255; 255; 0])) /\
  MaskFrom 24 32 = MaskFrom4 [255; 255; 255; 0].
Proof.
  assert (H2 : Constructed (MaskFrom4 [255; 255; 255; 0])).
  { apply Constructed_MaskFrom4; [reflexivity|].
    repeat constructor; unfold isByte; lia. }
  split; [split; [apply Constructed_MaskFrom | exact H2]|].
  exact (proj1 (Marshal_injective (MaskFrom 24 32)
                  (MaskFrom4 [255; 255; 255; 0])
                  (Constructed_MaskFrom 24 32) H2) eq_refl).
Defined.

(** X19. Re-encoding a decoded input: whenever [UnmarshalBinary] accepts
    [b], [MarshalBinary] of the stored Mask returns [b] again, except for a
    single byte above 128, which was stored as the zero Mask and is
    re-encoded as no bytes. *)
Theorem UnmarshalBinary_MarshalBinary (b : list Z) (r : Mask) :
  Forall isByte b -> fst (UnmarshalBinary b r) = nilError ->
  fst (MarshalBinary (snd (UnmarshalBinary b r))) =
  if (Z.of_nat (List.length b) =? 1) && (128 <? nth 0 b 0) then [] else b.
Proof.
  intros Hb H.
  destruct b as [|b0 [|b1 [|b2 [|b3 [|b4 l]]]]].
  - reflexivity.
  - apply Forall_isByte_cons in Hb as [H0 _]. unfold isByte in H0.
    unfold UnmarshalBinary. cbn -[MaskFrom]. unfold bind, store, ret.
    cbn [snd]. destruct (128 <? b0) eqn:E.
    + apply Z.ltb_lt in E. now rewrite MaskFrom_128_invalid.
    + apply Z.ltb_ge in E. rewrite MaskFrom_128 by lia.
      unfold MarshalBinary, AppendBinary. cbn [z mask fst app].
      unfold uint8. now rewrite Z.mod_small by lia.
  - discriminate.
  - discriminate.
  - unfold UnmarshalBinary. cbn -[MaskFrom4]. unfold bind, store, ret.
    cbn [snd].
    change (MaskFrom4 [b0; b1; b2; b3])
      with {| mask := mask (MaskFrom4 [b0; b1; b2; b3]); z := z4 |}.
    unfold MarshalBinary. rewrite AppendBinary_z4. cbn [fst app].
    now apply PutUint32_MaskFrom4.
  - exfalso. revert H. unfold UnmarshalBinary.
    cbn [List.length].
    destruct (Z.of_nat (S (S (S (S (S (List.length l)))))) =? 0) eqn:E0;
      [apply Z.eqb_eq in E0; lia|].
    destruct (Z.of_nat (S (S (S (S (S (List.length l)))))) =? 4) eqn:E4;
      [apply Z.eqb_eq in E4; lia|].
    destruct (Z.of_nat (S (S (S (S (S (List.length l)))))) =? 1) eqn:E1;
      [apply Z.eqb_eq in E1; lia|].
    discriminate.
Qed.

Lemma UnmarshalBinary_MarshalBinary_witness :
  (Forall isByte [255; 0; 255; 0] /\
   fst (UnmarshalBinary [255; 0; 255; 0] zeroMask) = nilError) /\
  fst (MarshalBinary (snd (UnmarshalBinary [255; 0; 255; 0] zeroMask)))
  = [255; 0; 255; 0].
Proof.
  assert (Hb : Forall isByte [255; 0; 255; 0])
    by (repeat constructor; unfold isByte; lia).
  split; [split; [exact Hb | reflexivity]|].
  exact (UnmarshalBinary_MarshalBinary [255; 0; 255; 0] zeroMask Hb eq_refl).
Defined.
